(** * Chat Heretics: the Socket.io gateway (backend/src/utils/socket.ts)

    A shallow embedding of the real-time gateway: the authentication
    middleware, the connection handler and the per-socket event handlers
    (join-chat, leave-chat, send-message, typing, disconnect), run against
    an explicit server state made of the [onlineUsers] map, the Socket.io
    namespace (connected sockets and adapter rooms) and the three Mongoose
    collections the handlers touch.

    Every handler is modelled as one atomic step of the single-threaded
    event loop; the interleaving of other handlers at an [await] is not
    modelled.  What an [await]ed collaborator call can do besides returning
    is modelled: it can throw, and the handlers' try/catch blocks are
    embedded as written.

    Socket.io itself is a library, not part of the sources; its delivery
    rules are taken from its documented behaviour: [socket.emit] writes to
    that socket, [socket.broadcast.emit] to every connected socket but that
    one, [io.to(room).emit] to the members of the room, [socket.to(room).emit]
    to the members of the room but that socket; a socket that disconnects
    has left every room and the namespace by the time its "disconnect"
    handler runs.

    Mongoose is a library too.  A document's _id and its references to other
    documents are ObjectIds; the handlers hold user and chat ids as strings.
    Where a query filter or a document path of type ObjectId is given a
    string, Mongoose casts the string to an ObjectId and the call rejects
    with a CastError when it cannot; where the code itself compares or
    prints an id ([toString], a template literal), it works on the hex
    spelling. *)

From stdpp Require Import base option list gmap sets strings sorting.
From Stdlib Require Import ZArith Ascii.

Local Open Scope string_scope.

(** ** ObjectIds

    The one law used of the cast: the spelling [toString] gives of an id
    casts back to that id.  Other spellings may cast to the same id (the
    hex digits may be written in upper case), and a string may fail to
    cast. *)
Class ObjectIds := {
  ObjectId : Type;
  #[global] ObjectId_eq_dec :: EqDecision ObjectId;
  toString : ObjectId → string;             (* id.toString(), `${id}` *)
  castObjectId : string → option ObjectId;  (* None: CastError *)
  cast_toString : ∀ id, castObjectId (toString id) = Some id
}.

(** ** The JavaScript [Map<string, string>]

    Keys are kept in insertion order; [set] on a present key overwrites the
    value in place, [delete] drops the entry, [keys] iterates in order. *)
Module JSMap.

Definition t := list (string * string).

Definition empty : t := [].

Fixpoint get (k : string) (m : t) : option string :=
  match m with
  | [] => None
  | (k', v) :: m' => if decide (k = k') then Some v else get k m'
  end.

Fixpoint set (k v : string) (m : t) : t :=
  match m with
  | [] => [(k, v)]
  | (k', v') :: m' =>
      if decide (k = k') then (k, v) :: m' else (k', v') :: set k v m'
  end.

Fixpoint delete (k : string) (m : t) : t :=
  match m with
  | [] => []
  | (k', v') :: m' =>
      if decide (k = k') then delete k m' else (k', v') :: delete k m'
  end.

Definition keys (m : t) : list string := map fst m.

End JSMap.

Section Model.
Context {Ids : ObjectIds}.

(** ** Documents of the persistence layer

    The Mongoose schemas (models/User, models/Chat, models/Message) are not
    part of the sources at hand; each record below carries the fields that
    the handlers and controllers read or write. *)

Record User := mkUser {
  user_id : ObjectId;        (* user._id *)
  clerkId : string;
  name : string;
  email : string;
  avatar : string
}.

Record Chat := mkChat {
  chat_id : ObjectId;               (* chat._id *)
  participants : list ObjectId;     (* chat.participants, an array of user ids *)
  lastMessage : option ObjectId;    (* chat.lastMessage, a message id *)
  lastMessageAt : option Z;         (* chat.lastMessageAt *)
  createdAt : Z                     (* chat.createdAt *)
}.

Record Message := mkMessage {
  message_id : ObjectId;     (* message._id *)
  chat : ObjectId;
  sender : ObjectId;
  text : string
}.

(** [message.populate("sender", "name email avatar")] replaces the sender
    reference by the selected fields of the user document (or by null when
    the reference dangles). *)
Record SenderDetails := mkSenderDetails {
  sd_id : ObjectId;
  sd_name : string;
  sd_email : string;
  sd_avatar : string
}.

Record PopulatedMessage := mkPopulated {
  pm_id : ObjectId;
  pm_chat : ObjectId;
  pm_sender_id : ObjectId;
  pm_sender : option SenderDetails;
  pm_text : string
}.

(** ** Server-to-client events and where they are sent *)

Inductive Event :=
| online_users (userIds : list string)
| user_online (userId : string)
| user_offline (userId : string)
| new_message (message : PopulatedMessage)
| typing (userId chatId : string) (isTyping : bool)
| socket_error (message : string)
| error (message : string).

Inductive Target :=
| ToSocket (sid : string)                 (* socket.emit(...) *)
| BroadcastExcept (sid : string)          (* socket.broadcast.emit(...) *)
| ToRoom (room : string)                  (* io.to(room).emit(...) *)
| ToRoomExcept (room : string) (sid : string). (* socket.to(room).emit(...) *)

Record Emission := mkEmission {
  target : Target;
  event : Event;
  recipients : gset string     (* socket ids the packet is written to *)
}.

Global Instance SenderDetails_eq_dec : EqDecision SenderDetails.
Proof. solve_decision. Defined.
Global Instance PopulatedMessage_eq_dec : EqDecision PopulatedMessage.
Proof. solve_decision. Defined.
Global Instance Event_eq_dec : EqDecision Event.
Proof. solve_decision. Defined.
Global Instance Target_eq_dec : EqDecision Target.
Proof. solve_decision. Defined.

(** ** Server state *)

Record Server := mkServer {
  onlineUsers : JSMap.t;               (* userId -> socket.id *)
  sockets : gmap string string;        (* connected socket.id -> socket.data.userId *)
  rooms : gmap string (gset string);   (* adapter rooms: key -> member socket ids *)
  users : list User;
  chats : list Chat;                   (* the Chat collection *)
  messages : list Message;
  verifier_calls : list string         (* tokens handed to verifyToken so far *)
}.

Definition with_onlineUsers (f : JSMap.t → JSMap.t) (st : Server) : Server :=
  mkServer (f (onlineUsers st)) (sockets st) (rooms st) (users st) (chats st)
           (messages st) (verifier_calls st).

Definition with_sockets (f : gmap string string → gmap string string)
    (st : Server) : Server :=
  mkServer (onlineUsers st) (f (sockets st)) (rooms st) (users st) (chats st)
           (messages st) (verifier_calls st).

Definition with_rooms
    (f : gmap string (gset string) → gmap string (gset string))
    (st : Server) : Server :=
  mkServer (onlineUsers st) (sockets st) (f (rooms st)) (users st) (chats st)
           (messages st) (verifier_calls st).

Definition with_chats (f : list Chat → list Chat)
    (st : Server) : Server :=
  mkServer (onlineUsers st) (sockets st) (rooms st) (users st) (f (chats st))
           (messages st) (verifier_calls st).

Definition with_messages (f : list Message → list Message)
    (st : Server) : Server :=
  mkServer (onlineUsers st) (sockets st) (rooms st) (users st) (chats st)
           (f (messages st)) (verifier_calls st).

Definition with_verifier_calls (f : list string → list string)
    (st : Server) : Server :=
  mkServer (onlineUsers st) (sockets st) (rooms st) (users st) (chats st)
           (messages st) (f (verifier_calls st)).

(** ** What the environment decides for one handler run *)

Inductive DbOp :=
| User_findOne_op | Chat_findOne_op | Chat_findById_op
| Message_create_op | Chat_save_op | Message_populate_op.

Record Env := mkEnv {
  verifyToken : string → option string;  (* Some session.sub, or None: it throws *)
  db_throws : DbOp → bool;               (* does this awaited call reject? *)
  now : Z;                               (* new Date() *)
  newObjectId : ObjectId                 (* the _id given to a created document *)
}.

(** ** Handlers run in a state monad with exceptions and an emission log *)

Inductive Completion (A : Type) :=
| Normal (a : A)
| Throw (e : string).
Arguments Normal {A} a.
Arguments Throw {A} e.

Record Run (A : Type) := mkRun {
  completion : Completion A;
  final : Server;
  emitted : list Emission
}.
Arguments mkRun {A}.
Arguments completion {A}.
Arguments final {A}.
Arguments emitted {A}.

Definition M (A : Type) := Server → Run A.

Definition ret {A} (a : A) : M A := λ st, mkRun (Normal a) st [].

Definition throw {A} (e : string) : M A := λ st, mkRun (Throw e) st [].

Definition bind {A B} (m : M A) (k : A → M B) : M B := λ st,
  let r := m st in
  match completion r with
  | Normal a =>
      let r' := k a (final r) in
      mkRun (completion r') (final r') (emitted r ++ emitted r')%list
  | Throw e => mkRun (Throw e) (final r) (emitted r)
  end.

(** try { m } catch (error) { h } : effects of [m] up to the throw stay. *)
Definition try_catch {A} (m : M A) (h : string → M A) : M A := λ st,
  let r := m st in
  match completion r with
  | Normal a => r
  | Throw e =>
      let r' := h e (final r) in
      mkRun (completion r') (final r') (emitted r ++ emitted r')%list
  end.

Definition read {A} (f : Server → A) : M A := λ st, mkRun (Normal (f st)) st [].

Definition modify (f : Server → Server) : M unit :=
  λ st, mkRun (Normal tt) (f st) [].

Global Instance M_ret : MRet M := @ret.
Global Instance M_bind : MBind M := λ A B k m, bind m k.

(** for (const x of xs) body(x) *)
Fixpoint for_of {A} (xs : list A) (body : A → M unit) : M unit :=
  match xs with
  | [] => ret tt
  | x :: xs' => body x;; for_of xs' body
  end.

(** ** Socket.io primitives *)

Definition room_members (st : Server) (room : string) : gset string :=
  default ∅ (rooms st !! room).

Definition recipients_of (st : Server) (t : Target) : gset string :=
  match t with
  | ToSocket sid => {[ sid ]}
  | BroadcastExcept sid => dom (sockets st) ∖ {[ sid ]}
  | ToRoom room => room_members st room
  | ToRoomExcept room sid => room_members st room ∖ {[ sid ]}
  end.

Definition emit (t : Target) (ev : Event) : M unit := λ st,
  mkRun (Normal tt) st [mkEmission t ev (recipients_of st t)].

Definition socket_emit (sid : string) (ev : Event) : M unit :=
  emit (ToSocket sid) ev.
Definition socket_broadcast_emit (sid : string) (ev : Event) : M unit :=
  emit (BroadcastExcept sid) ev.
Definition io_to_emit (room : string) (ev : Event) : M unit :=
  emit (ToRoom room) ev.
Definition socket_to_emit (sid room : string) (ev : Event) : M unit :=
  emit (ToRoomExcept room sid) ev.

Definition socket_join (sid room : string) : M unit :=
  modify (λ st, with_rooms (λ rs, <[room := {[ sid ]} ∪ room_members st room]> rs) st).

Definition socket_leave (sid room : string) : M unit :=
  modify (λ st, with_rooms (λ rs, <[room := room_members st room ∖ {[ sid ]}]> rs) st).

(** The events one connection gets out of a log of emissions, in order. *)
Definition received (sid : string) (log : list Emission) : list Event :=
  event <$> filter (λ e, sid ∈ recipients e) log.

(** Room keys, as the template literals build them. *)
Definition chat_room (chatId : string) : string := "chat:" +:+ chatId.
Definition user_room (userId : string) : string := "user:" +:+ userId.

(** ** Mongoose calls *)

(** An awaited database call rejects when the environment says so. *)
Definition awaited {A} (env : Env) (op : DbOp) (m : M A) : M A :=
  if db_throws env op then throw "database error" else m.

(** A string where the schema has an ObjectId: Mongoose casts it, and the
    call it is part of rejects when the string is no ObjectId. *)
Definition cast_id (s : string) : M ObjectId :=
  match castObjectId s with
  | Some id => mret id
  | None => throw "CastError"
  end.

(** User.findOne({ clerkId }) *)
Definition User_findOne (env : Env) (cid : string) : M (option User) :=
  awaited env User_findOne_op
    (read (λ st, find (λ u, bool_decide (clerkId u = cid)) (users st))).

(** Chat.findOne({ _id: chatId, participants: userId }): both strings are
    cast, then the first chat with that _id whose participants array holds
    that user id is returned. *)
Definition Chat_findOne (env : Env) (chatId userId : string) : M (option Chat) :=
  _id ← cast_id chatId;
  participant ← cast_id userId;
  awaited env Chat_findOne_op
    (read (λ st,
       find (λ c, bool_decide (chat_id c = _id ∧ participant ∈ participants c))
            (chats st))).

(** Chat.findById(chatId) *)
Definition Chat_findById (env : Env) (chatId : string) : M (option Chat) :=
  _id ← cast_id chatId;
  awaited env Chat_findById_op
    (read (λ st, find (λ c, bool_decide (chat_id c = _id)) (chats st))).

(** Message.create({ chat: chatId, sender: userId, text }): the document
    holds the two ids as cast. *)
Definition Message_create (env : Env) (chatId userId txt : string) : M Message :=
  awaited env Message_create_op
    (chat ← cast_id chatId;
     sender ← cast_id userId;
     let message := mkMessage (newObjectId env) chat sender txt in
     modify (with_messages (λ ms, (ms ++ [message])%list));;
     mret message).

(** The write behind chat.save(): the stored document with the same _id
    takes the in-memory document's fields. *)
Fixpoint updateOne (doc : Chat) (cs : list Chat) : list Chat :=
  match cs with
  | [] => []
  | c :: cs' =>
      if decide (chat_id c = chat_id doc) then doc :: cs'
      else c :: updateOne doc cs'
  end.

(** chat.save() *)
Definition Chat_save (env : Env) (c : Chat) : M unit :=
  awaited env Chat_save_op (modify (with_chats (updateOne c))).

Definition populate_sender (us : list User) (m : Message) : PopulatedMessage :=
  let details :=
    (λ u, mkSenderDetails (user_id u) (name u) (email u) (avatar u))
      <$> find (λ u, bool_decide (user_id u = sender m)) us in
  mkPopulated (message_id m) (chat m) (sender m) details (text m).

(** message.populate("sender", "name email avatar") *)
Definition Message_populate (env : Env) (m : Message) : M PopulatedMessage :=
  awaited env Message_populate_op (read (λ st, populate_sender (users st) m)).

(** ** The gateway *)

Inductive Admission :=
| Accepted (userId : string)       (* socket.data.userId set, next() *)
| Rejected (reason : string).      (* next(new Error(reason)) *)

(** !token *)
Definition falsy (token : option string) : bool :=
  match token with
  | None => true
  | Some s => bool_decide (s = "")
  end.

(** io.use(async (socket, next) => ...) *)
Definition auth_middleware (env : Env) (token : option string) : M Admission :=
  if falsy token then mret (Rejected "Unauthorized") else
  let tok := default "" token in
  try_catch
    (modify (with_verifier_calls (λ cs, (cs ++ [tok])%list));;
     clerk ← match verifyToken env tok with
              | Some sub => mret sub
              | None => throw "invalid token"
              end;
     user ← User_findOne env clerk;
     match user with
     | None => mret (Rejected "User not found!")
     | Some u => mret (Accepted (toString (user_id u)))
     end)
    (λ _, mret (Rejected "Unauthorized")).

(** io.on("connection", (socket) => ...) up to the handler registrations *)
Definition on_connection (sid userId : string) : M unit :=
  ids ← read (λ st, JSMap.keys (onlineUsers st));
  socket_emit sid (online_users ids);;
  modify (with_onlineUsers (JSMap.set userId sid));;
  socket_broadcast_emit sid (user_online userId);;
  socket_join sid (user_room userId).

(** socket.on("join-chat", ...) *)
Definition on_join_chat (sid chatId : string) : M unit :=
  socket_join sid (chat_room chatId).

(** socket.on("leave-chat", ...) *)
Definition on_leave_chat (sid chatId : string) : M unit :=
  socket_leave sid (chat_room chatId).

(** socket.on("send-message", async (data) => ...); the chat channel is keyed
    by the chatId string of the request, the personal channels by the hex
    spelling of the stored participant ids. *)
Definition on_send_message (env : Env) (sid userId chatId txt : string) : M unit :=
  try_catch
    (found ← Chat_findOne env chatId userId;
     match found with
     | None => socket_emit sid (socket_error "Chat not found")
     | Some c =>
         message ← Message_create env chatId userId txt;
         let c' := mkChat (chat_id c) (participants c)
                     (Some (message_id message)) (Some (now env)) (createdAt c) in
         Chat_save env c';;
         populated ← Message_populate env message;
         io_to_emit (chat_room chatId) (new_message populated);;
         for_of (participants c')
           (λ participant,
              io_to_emit (user_room (toString participant)) (new_message populated))
     end)
    (λ _, socket_emit sid (error "Failed to send message")).

(** socket.on("typing", async (data) => ...) *)
Definition on_typing (env : Env) (sid userId chatId : string) (isTyping : bool)
    : M unit :=
  let typePayload := typing userId chatId isTyping in
  socket_to_emit sid (chat_room chatId) typePayload;;
  try_catch
    (found ← Chat_findById env chatId;
     match found with
     | Some c =>
         match find (λ p, bool_decide (toString p ≠ userId)) (participants c) with
         | Some otherParticipant =>
             io_to_emit (user_room (toString otherParticipant)) typePayload
         | None => mret tt
         end
     | None => mret tt
     end)
    (λ _, mret tt).

(** socket.on("disconnect", ...) *)
Definition on_disconnect (sid userId : string) : M unit :=
  modify (with_onlineUsers (JSMap.delete userId));;
  socket_broadcast_emit sid (user_offline userId).

(** ** The event loop

    One input is one thing the transport hands to the server: a handshake,
    a client event on a connected socket, or the end of a connection. *)

Inductive Input :=
| Connect (sid : string) (token : option string)
| JoinChat (sid chatId : string)
| LeaveChat (sid chatId : string)
| SendMessage (sid chatId txt : string)
| TypingSignal (sid chatId : string) (isTyping : bool)
| Disconnect (sid : string).

(** Handlers registered on a socket close over its [userId]; events of a
    socket that is not connected reach no handler. *)
Definition for_socket (sid : string) (h : string → M unit) : M unit :=
  bound ← read (λ st, sockets st !! sid);
  match bound with
  | Some userId => h userId
  | None => mret tt
  end.

(** Socket.io, before it fires "disconnect": the socket leaves every room
    and is removed from the namespace. *)
Definition socket_cleanup (sid : string) : M unit :=
  modify (λ st,
    with_sockets (delete sid) (with_rooms (fmap (λ ms, ms ∖ {[ sid ]})) st)).

Definition handle (env : Env) (i : Input) : M unit :=
  match i with
  | Connect sid token =>
      bound ← read (λ st, sockets st !! sid);
      match bound with
      | Some _ => mret tt          (* socket ids are unique per process *)
      | None =>
          admission ← auth_middleware env token;
          match admission with
          | Rejected _ => mret tt
          | Accepted userId =>
              modify (with_sockets (<[sid := userId]>));;
              on_connection sid userId
          end
      end
  | JoinChat sid chatId => for_socket sid (λ _, on_join_chat sid chatId)
  | LeaveChat sid chatId => for_socket sid (λ _, on_leave_chat sid chatId)
  | SendMessage sid chatId txt =>
      for_socket sid (λ userId, on_send_message env sid userId chatId txt)
  | TypingSignal sid chatId isTyping =>
      for_socket sid (λ userId, on_typing env sid userId chatId isTyping)
  | Disconnect sid =>
      for_socket sid (λ userId, socket_cleanup sid;; on_disconnect sid userId)
  end.

Definition step (env : Env) (i : Input) (st : Server) : Server :=
  final (handle env i st).

Definition outbox (env : Env) (i : Input) (st : Server) : list Emission :=
  emitted (handle env i st).

Fixpoint run (trace : list (Env * Input)) (st : Server) : Server :=
  match trace with
  | [] => st
  | (env, i) :: trace' => run trace' (step env i st)
  end.

(** The process starts with nobody online, no socket and no room; the
    collections hold whatever the database holds. *)
Definition fresh_process (st : Server) : Prop :=
  onlineUsers st = JSMap.empty ∧ sockets st = ∅ ∧ rooms st = ∅.

Inductive reachable : Server → Prop :=
| reachable_start st : fresh_process st → reachable st
| reachable_step env i st : reachable st → reachable (step env i st).

(** ** Notions used in the statements *)

(** The message as created and the chat document as saved by a send whose
    ids were cast to [userId] and [chatId]. *)
Definition created_message (env : Env) (userId chatId : ObjectId) (txt : string)
    : Message :=
  mkMessage (newObjectId env) chatId userId txt.

Definition touched_chat (env : Env) (c : Chat) : Chat :=
  mkChat (chat_id c) (participants c) (Some (newObjectId env)) (Some (now env))
         (createdAt c).

(** A send whose ids were cast to [userId] and [chatId] succeeds when the
    chat is found and no awaited call rejects. *)
Definition send_succeeds (env : Env) (userId chatId : ObjectId) (st : Server)
    (c : Chat) : Prop :=
  find (λ c, bool_decide (chat_id c = chatId ∧ userId ∈ participants c))
       (chats st) = Some c ∧
  db_throws env Chat_findOne_op = false ∧
  db_throws env Message_create_op = false ∧
  db_throws env Chat_save_op = false ∧
  db_throws env Message_populate_op = false.

(** Personal rooms hold exactly the sockets of their user. *)
Definition personal_rooms_inv (st : Server) : Prop :=
  ∀ u sid, sid ∈ room_members st (user_room u) ↔ sockets st !! sid = Some u.

(** Every presence entry holds the handle of a connected socket of that
    identity. *)
Definition presence_entries_live (st : Server) : Prop :=
  ∀ u s, JSMap.get u (onlineUsers st) = Some s → sockets st !! s = Some u.

(** "An identity has a presence entry iff it has a live admitted connection". *)
Definition presence_matches_connections (st : Server) : Prop :=
  ∀ u, is_Some (JSMap.get u (onlineUsers st)) ↔ ∃ sid, sockets st !! sid = Some u.

(** Every member of every room is a connected socket. *)
Definition rooms_hold_connected (st : Server) : Prop :=
  ∀ room s, s ∈ room_members st room → is_Some (sockets st !! s).

(** What identifies a chat and never changes: its _id, its participants and
    its creation time. *)
Definition chat_identity (c : Chat) : ObjectId * list ObjectId * Z :=
  (chat_id c, participants c, createdAt c).

(** The single event a failed send leaves behind. *)
Definition send_failure (sid : string) : Emission :=
  mkEmission (ToSocket sid) (error "Failed to send message") {[ sid ]}.

(** Every connected socket is bound to the _id of a user document, in its
    hex spelling. *)
Definition sockets_are_users (st : Server) : Prop :=
  ∀ s u, sockets st !! s = Some u →
         ∃ usr, usr ∈ users st ∧ toString (user_id usr) = u.

(** How often an id occurs in a participants array. *)
Definition occurrences (p : ObjectId) (ps : list ObjectId) : nat :=
  length (filter (λ q, q = p) ps).

(** ** The CORS origins (initializeSocket, app.ts)

    [process.env.FRONTEND_URL] is undefined or a string. *)
Definition allowedOrigins (FRONTEND_URL : option string) : list string :=
  filter (λ origin, origin ≠ "")
    [ "http://localhost:8081"; "http://localhost:5173";
      if falsy FRONTEND_URL then "" else default "" FRONTEND_URL ].

(** ** The HTTP side: the auth middleware and the controllers

    A handler's effect on the response is the list of calls it makes on
    [res] and [next], in order.  [res.json(body)] without a status leaves the
    response at the status it has, which is 200 unless something set it.
    [userId] is req.userId throughout: the string [protectedRoute] stored,
    the hex spelling of a stored _id. *)

Inductive Reply (A : Type) :=
| Json (status : nat) (body : A)                  (* res.status(..).json(body) *)
| JsonMessage (status : nat) (message : string)   (* res.status(..).json({ message }) *)
| NextError (e : string).                         (* next(error) *)
Arguments Json {A} status body.
Arguments JsonMessage {A} status message.
Arguments NextError {A} e.

Inductive HttpDbOp :=
| User_find_op | User_findById_op | Chat_find_op
| Chat_findOne_all_op | Chat_new_save_op | Chat_populate_op.

Record HttpEnv := mkHttpEnv {
  shared : Env;                   (* User.findOne, the clock, the next _id *)
  http_throws : HttpDbOp → bool;  (* does this awaited call reject? *)
  isValid : string → bool;        (* Types.ObjectId.isValid *)
  new_lastMessageAt : option Z    (* lastMessageAt of a new Chat, by its schema *)
}.

Definition awaited_http {A} (henv : HttpEnv) (op : HttpDbOp) (m : M A) : M A :=
  if http_throws henv op then throw "database error" else m.

(** The fields kept by select("name email avatar"), with the _id. *)
Definition profile (u : User) : SenderDetails :=
  mkSenderDetails (user_id u) (name u) (email u) (avatar u).

(** What the second function of [protectedRoute] leaves for the next handler. *)
Inductive Guard :=
| Proceed (userId : string)                  (* req.userId set, next() *)
| Denied (status : nat) (message : string)   (* res.status(..).json({ message }) *)
| Failed (e : string).                       (* next(error) *)

(** protectedRoute, after requireAuth(): [clerk] is getAuth(req).userId. *)
Definition protectedRoute (henv : HttpEnv) (clerk : string) : M Guard :=
  try_catch
    (user ← User_findOne (shared henv) clerk;
     match user with
     | None => mret (Denied 401 "Unauthorized")
     | Some u => mret (Proceed (toString (user_id u)))
     end)
    (λ e, mret (Failed e)).

(** User.findById(userId); req.userId spells the _id it is cast to. *)
Definition User_findById (henv : HttpEnv) (userId : string) : M (option User) :=
  awaited_http henv User_findById_op
    (read (λ st,
       find (λ u, bool_decide (toString (user_id u) = userId)) (users st))).

(** getMe *)
Definition getMe (henv : HttpEnv) (userId : string) : M (list (Reply User)) :=
  try_catch
    (user ← User_findById henv userId;
     match user with
     | None => mret [JsonMessage 404 "User not found"]
     | Some u => mret [Json 200 u]
     end)
    (λ e, mret [JsonMessage 500 "Internal server error"; NextError e]).

(** User.find({ _id: { $ne: userId } }).select("name email avatar").limit(50);
    req.userId spells the _id it is cast to. *)
Definition User_find_others (henv : HttpEnv) (userId : string)
    : M (list SenderDetails) :=
  awaited_http henv User_find_op
    (read (λ st,
       take 50
         (profile <$> filter (λ u, toString (user_id u) ≠ userId) (users st)))).

(** getUsers *)
Definition getUsers (henv : HttpEnv) (userId : string)
    : M (list (Reply (list SenderDetails))) :=
  try_catch
    (found ← User_find_others henv userId;
     mret [Json 200 found])
    (λ e, mret [NextError e]).

(** A chat with its participants populated, and its lastMessage when the
    query populates that too.  Populating an array of references drops the
    references that resolve to no document. *)
Record PopulatedChat := mkPopulatedChat {
  pc_id : ObjectId;
  pc_participants : list SenderDetails;
  pc_lastMessage : option Message;
  pc_lastMessageAt : option Z;
  pc_createdAt : Z
}.

Definition populate_participants (us : list User) (ps : list ObjectId)
    : list SenderDetails :=
  omap (λ p, profile <$> find (λ u, bool_decide (user_id u = p)) us) ps.

(** .populate("participants", "name email avatar").populate("lastMessage") *)
Definition populate_chat (st : Server) (c : Chat) : PopulatedChat :=
  mkPopulatedChat (chat_id c)
    (populate_participants (users st) (participants c))
    (lastMessage c ≫= λ id,
       find (λ m, bool_decide (message_id m = id)) (messages st))
    (lastMessageAt c) (createdAt c).

(** Chat.findOne({ participants: { $all: [userId, participantId] } })
      .populate("participants", "name email avatar").populate("lastMessage");
    the two strings of the $all array are cast. *)
Definition Chat_findOne_all (henv : HttpEnv) (userId participantId : string)
    : M (option PopulatedChat) :=
  first ← cast_id userId;
  second ← cast_id participantId;
  awaited_http henv Chat_findOne_all_op
    (read (λ st,
       populate_chat st
       <$> find (λ c, bool_decide (first ∈ participants c
                                   ∧ second ∈ participants c))
                (chats st))).

(** new Chat({ participants: [userId, participantId] }): the array holds the
    two strings as cast.  (A string that cannot be cast is reported by the
    save that follows; here both have been cast by the query before.) *)
Definition new_Chat (henv : HttpEnv) (userId participantId : string) : M Chat :=
  first ← cast_id userId;
  second ← cast_id participantId;
  mret (mkChat (newObjectId (shared henv)) [first; second] None
               (new_lastMessageAt henv) (now (shared henv))).

(** newChat.save() *)
Definition Chat_new_save (henv : HttpEnv) (c : Chat) : M unit :=
  awaited_http henv Chat_new_save_op
    (modify (with_chats (λ cs, (cs ++ [c])%list))).

(** newChat.populate("participants", "name email avatar") *)
Definition Chat_populate (henv : HttpEnv) (c : Chat) : M PopulatedChat :=
  awaited_http henv Chat_populate_op
    (read (λ st,
       mkPopulatedChat (chat_id c)
         (populate_participants (users st) (participants c))
         None (lastMessageAt c) (createdAt c))).

(** The body of a successful getOrCreateChat response. *)
Record ChatSummary := mkChatSummary {
  summary_id : ObjectId;
  participant : option SenderDetails;
  summary_lastMessage : option Message;
  summary_lastMessageAt : option Z;
  summary_createdAt : Z
}.

(** What both chat controllers answer for one chat: the other participant
    is the first populated participant whose _id is not spelled as the
    requester's. *)
Definition summarize (userId : string) (c : PopulatedChat) : ChatSummary :=
  let otherParticipant :=
    find (λ p, bool_decide (toString (sd_id p) ≠ userId)) (pc_participants c) in
  mkChatSummary (pc_id c) otherParticipant (pc_lastMessage c)
    (pc_lastMessageAt c) (pc_createdAt c).

(** getOrCreateChat; [participantId] is req.params.participantId. *)
Definition getOrCreateChat (henv : HttpEnv) (userId participantId : string)
    : M (list (Reply ChatSummary)) :=
  try_catch
    (if bool_decide (participantId = "")
     then mret [JsonMessage 400 "Participant ID is required"]
     else if negb (isValid henv participantId)
     then mret [JsonMessage 400 "Invalid participant ID"]
     else if bool_decide (userId = participantId)
     then mret [JsonMessage 400 "You cannot chat with yourself"]
     else
       found ← Chat_findOne_all henv userId participantId;
       c ← match found with
            | Some c => mret c
            | None =>
                newChat ← new_Chat henv userId participantId;
                Chat_new_save henv newChat;;
                Chat_populate henv newChat
            end;
       mret [Json 200 (summarize userId c)])
    (λ e, mret [NextError e]).

(** The order of sort({ lastMessageAt: -1 }): a missing date is older than
    any date. *)
Definition activity_le (a b : option Z) : Prop :=
  match a, b with
  | None, _ => True
  | Some _, None => False
  | Some x, Some y => (x ≤ y)%Z
  end.

Global Instance activity_le_dec a b : Decision (activity_le a b).
Proof. destruct a, b; simpl; apply _. Defined.

Definition more_recent (c1 c2 : PopulatedChat) : Prop :=
  activity_le (pc_lastMessageAt c2) (pc_lastMessageAt c1).

Global Instance more_recent_dec c1 c2 : Decision (more_recent c1 c2).
Proof. unfold more_recent. apply _. Defined.

(** Chat.find({ participants: userId })
      .populate("participants", "name email avatar").populate("lastMessage")
      .sort({ lastMessageAt: -1 });
    req.userId spells the _id it is cast to. *)
Definition Chat_find_mine (henv : HttpEnv) (userId : string)
    : M (list PopulatedChat) :=
  awaited_http henv Chat_find_op
    (read (λ st,
       merge_sort more_recent
         (populate_chat st
          <$> filter (λ c, userId ∈ toString <$> participants c) (chats st)))).

(** getChats *)
Definition getChats (henv : HttpEnv) (userId : string)
    : M (list (Reply (list ChatSummary))) :=
  try_catch
    (found ← Chat_find_mine henv userId;
     let formattedChats := summarize userId <$> found in
     mret [Json 200 formattedChats])
    (λ e, mret [NextError e]).

End Model.

(** The implicit arguments of the section, for what follows. *)
Arguments Normal {A} a.
Arguments Throw {A} e.
Arguments mkRun {Ids A}.
Arguments completion {Ids A}.
Arguments final {Ids A}.
Arguments emitted {Ids A}.
Arguments Json {A} status body.
Arguments JsonMessage {A} status message.
Arguments NextError {A} e.

(** ** ObjectIds as Mongoose spells them, for examples

    An ObjectId is twelve bytes, spelled as 24 hexadecimal digits;
    [toString] spells them in lower case and the cast reads either case.
    (A cast may accept more than this; the examples use 24-digit hex strings
    and strings that are too short to be an id.) *)

Inductive HexDigit :=
| h0 | h1 | h2 | h3 | h4 | h5 | h6 | h7
| h8 | h9 | ha | hb | hc | hd | he | hf.

Global Instance HexDigit_eq_dec : EqDecision HexDigit.
Proof. solve_decision. Defined.

Definition hex_char (d : HexDigit) : ascii :=
  match d with
  | h0 => "0" | h1 => "1" | h2 => "2" | h3 => "3"
  | h4 => "4" | h5 => "5" | h6 => "6" | h7 => "7"
  | h8 => "8" | h9 => "9" | ha => "a" | hb => "b"
  | hc => "c" | hd => "d" | he => "e" | hf => "f"
  end%char.

Definition hex_spellings : list (ascii * HexDigit) :=
  [ ("0", h0); ("1", h1); ("2", h2); ("3", h3); ("4", h4); ("5", h5);
    ("6", h6); ("7", h7); ("8", h8); ("9", h9);
    ("a", ha); ("b", hb); ("c", hc); ("d", hd); ("e", he); ("f", hf);
    ("A", ha); ("B", hb); ("C", hc); ("D", hd); ("E", he); ("F", hf) ]%char.

Definition hex_digit (c : ascii) : option HexDigit :=
  snd <$> find (λ p, bool_decide (p.1 = c)) hex_spellings.

Fixpoint HexDigits (n : nat) : Type :=
  match n with
  | 0 => unit
  | S n => (HexDigit * HexDigits n)%type
  end.

Definition HexDigits_eq_dec (n : nat) : EqDecision (HexDigits n).
Proof. induction n; simpl; apply _. Defined.

Fixpoint spell (n : nat) : HexDigits n → string :=
  match n with
  | 0 => λ _, EmptyString
  | S n => λ ds, String (hex_char ds.1) (spell n ds.2)
  end.

Fixpoint parse (n : nat) (s : string) : option (HexDigits n) :=
  match n with
  | 0 => match s with
         | EmptyString => Some tt
         | String _ _ => None
         end
  | S n => match s with
           | EmptyString => None
           | String c s' =>
               d ← hex_digit c; ds ← parse n s'; Some (d, ds)
           end
  end.

Definition parse_spell (n : nat) (ds : HexDigits n) : parse n (spell n ds) = Some ds.
Proof.
  induction n as [|n IH]; simpl.
  - by destruct ds.
  - destruct ds as [d ds]. simpl. rewrite IH.
    by destruct d.
Qed.

Definition hex_ids : ObjectIds :=
  {| ObjectId := HexDigits 24;
     ObjectId_eq_dec := HexDigits_eq_dec 24;
     toString := spell 24;
     castObjectId := parse 24;
     cast_toString := parse_spell 24 |}.

Fixpoint zeros (n : nat) : HexDigits n :=
  match n with
  | 0 => tt
  | S n => (h0, zeros n)
  end.

(** ** A small deployment, for examples

    Two users, Ann and Bob, and one chat between them. *)
Module Scenario.

#[local] Existing Instance hex_ids.

(** The id a 24-digit hex string spells. *)
Definition oid (s : string) : ObjectId := default (zeros 24) (castObjectId s).

Definition u1 : string := "0000000000000000000000a1".   (* Ann *)
Definition u2 : string := "0000000000000000000000b2".   (* Bob *)
Definition u3 : string := "0000000000000000000000d3".   (* Cyd *)
Definition c1 : string := "0000000000000000000000c1".   (* the chat of Ann and Bob *)
Definition c2 : string := "0000000000000000000000c2".   (* names no chat *)
Definition c9 : string := "0000000000000000000000c9".   (* a chat listing Ann twice *)
Definition m1 : string := "0000000000000000000000e1".   (* the next _id *)

(** [c1] and [u1] with their letters in upper case. *)
Definition C1 : string := "0000000000000000000000C1".
Definition U1 : string := "0000000000000000000000A1".

Definition ann : User := mkUser (oid u1) "clerk_a" "Ann" "ann@example.org" "".
Definition bob : User := mkUser (oid u2) "clerk_b" "Bob" "bob@example.org" "".

Definition chat1 : Chat := mkChat (oid c1) [oid u1; oid u2] None None 5.

(** A chat whose participants array holds Ann's id twice. *)
Definition chat9 : Chat := mkChat (oid c9) [oid u1; oid u1] None None 7.

Definition verifier (tok : string) : option string :=
  if decide (tok = "tokA") then Some "clerk_a"
  else if decide (tok = "tokB") then Some "clerk_b"
  else None.

(** Every collaborator call answers. *)
Definition healthy : Env := mkEnv verifier (λ _, false) 1000 (oid m1).

(** The two chat lookups reject; everything else answers. *)
Definition lookups_down : Env :=
  mkEnv verifier
    (λ op, match op with
           | Chat_findOne_op | Chat_findById_op => true
           | _ => false
           end)
    1000 (oid m1).

Definition db0 : Server :=
  mkServer JSMap.empty ∅ ∅ [ann; bob] [chat1] [] [].

(** Ann is connected on socket "s1". *)
Definition ann_online : Server :=
  run [(healthy, Connect "s1" (Some "tokA"))] db0.

(** Ann on "s1", Bob on "s2", and Bob is viewing chat [c1]. *)
Definition both_online : Server :=
  run [(healthy, Connect "s1" (Some "tokA"));
       (healthy, Connect "s2" (Some "tokB"));
       (healthy, JoinChat "s2" c1)] db0.

(** As [both_online], and Ann has a second connection "s3", viewing [c1]. *)
Definition ann_twice : Server :=
  run [(healthy, Connect "s3" (Some "tokA"));
       (healthy, JoinChat "s3" c1)] both_online.

(** The database also holds [chat9]; Ann is connected on "s1", viewing it. *)
Definition db9 : Server :=
  mkServer JSMap.empty ∅ ∅ [ann; bob] [chat1; chat9] [] [].

Definition ann_in_chat9 : Server :=
  run [(healthy, Connect "s1" (Some "tokA"));
       (healthy, JoinChat "s1" c9)] db9.

End Scenario.

(** Examples for the HTTP side, over the small deployment: every call
    answers, and [isValid] accepts the 24-digit hex strings. *)
Module HttpScenario.

#[local] Existing Instance hex_ids.

Definition http_healthy : HttpEnv :=
  mkHttpEnv Scenario.healthy (λ _, false)
    (λ s, bool_decide (is_Some (castObjectId s))) None.

(** The database with a third user, Cyd, known to Clerk as clerk_c. *)
Definition cyd : User :=
  mkUser (Scenario.oid Scenario.u3) "clerk_c" "Cyd" "cyd@example.org" "".

Definition db_with_cyd : Server :=
  mkServer JSMap.empty ∅ ∅ [Scenario.ann; Scenario.bob; cyd] [] [] [].

(** As [http_healthy], but populating a new chat rejects. *)
Definition http_populate_down : HttpEnv :=
  mkHttpEnv Scenario.healthy
    (λ op, match op with Chat_populate_op => true | _ => false end)
    (λ s, bool_decide (is_Some (castObjectId s))) None.

(** For the gateway: chat.save() rejects, everything else answers. *)
Definition save_down : Env :=
  mkEnv Scenario.verifier
    (λ op, match op with Chat_save_op => true | _ => false end)
    1000 (Scenario.oid Scenario.m1).

End HttpScenario.

(** * Properties *)

(** ** The JavaScript map *)

Module JSMapFacts.
Import JSMap.

Lemma get_set_eq k v m : get k (set k v m) = Some v.
Proof.
  induction m as [|[k' v'] m IH]; simpl.
  - by rewrite decide_True.
  - destruct (decide (k = k')) as [->|Hne]; simpl.
    + by rewrite decide_True.
    + by rewrite decide_False.
Qed.

Lemma get_set_ne k k' v m : k ≠ k' → get k' (set k v m) = get k' m.
Proof.
  intros Hne. induction m as [|[k0 v0] m IH]; simpl.
  - by rewrite decide_False.
  - destruct (decide (k = k0)) as [->|Hk]; simpl.
    + by rewrite !decide_False.
    + by rewrite IH.
Qed.

Lemma get_delete_eq k m : get k (delete k m) = None.
Proof.
  induction m as [|[k' v'] m IH]; simpl; [done|].
  destruct (decide (k = k')) as [->|Hne]; simpl; [done|].
  by rewrite decide_False.
Qed.

Lemma get_delete_ne k k' m : k ≠ k' → get k' (delete k m) = get k' m.
Proof.
  intros Hne. induction m as [|[k0 v0] m IH]; simpl; [done|].
  destruct (decide (k = k0)) as [->|Hk]; simpl.
  - by rewrite decide_False.
  - by rewrite IH.
Qed.

Lemma elem_of_keys k m : k ∈ keys m ↔ is_Some (get k m).
Proof.
  unfold keys. induction m as [|[k' v'] m IH]; simpl.
  - split; [by intros ?%elem_of_nil | by intros [? ?]].
  - rewrite elem_of_cons, IH. destruct (decide (k = k')) as [->|Hne].
    + split; eauto.
    + split; [by intros [?|?] | by right].
Qed.

(** A value that is in the map after a [set] was there already or is the
    one that was set; [delete] introduces no value. *)
Lemma get_set_value k k' v w m :
  get k' (set k v m) = Some w → w = v ∨ get k' m = Some w.
Proof.
  destruct (decide (k = k')) as [->|Hne].
  - rewrite get_set_eq. intros [= <-]. by left.
  - rewrite get_set_ne by done. by right.
Qed.

Lemma get_delete_value k k' w m :
  get k' (delete k m) = Some w → get k' m = Some w.
Proof.
  destruct (decide (k = k')) as [->|Hne].
  - by rewrite get_delete_eq.
  - by rewrite get_delete_ne.
Qed.

End JSMapFacts.

Ltac reduce_run := cbn [completion final emitted app].

Ltac crack_handle :=
  unfold step, outbox, handle, for_socket, mbind, M_bind, bind, read;
  reduce_run.

Section Properties.
Context {Ids : ObjectIds}.

(** ** Room keys *)

Lemma chat_room_not_user_room c u : chat_room c ≠ user_room u.
Proof. unfold chat_room, user_room. simpl. discriminate. Qed.

Lemma user_room_inj u u' : user_room u = user_room u' → u = u'.
Proof. unfold user_room. intros H. by simplify_eq/=. Qed.

(** ** Rooms under join, leave and cleanup *)

Lemma room_members_join sid room st r :
  room_members (final (socket_join sid room st)) r =
  if decide (room = r) then {[ sid ]} ∪ room_members st room
  else room_members st r.
Proof.
  unfold room_members at 1. simpl. rewrite lookup_insert.
  by destruct (decide (room = r)).
Qed.

Lemma room_members_leave sid room st r :
  room_members (final (socket_leave sid room st)) r =
  if decide (room = r) then room_members st room ∖ {[ sid ]}
  else room_members st r.
Proof.
  unfold room_members at 1. simpl. rewrite lookup_insert.
  by destruct (decide (room = r)).
Qed.

Lemma room_members_cleanup sid st r :
  room_members (final (socket_cleanup sid st)) r = room_members st r ∖ {[ sid ]}.
Proof.
  unfold room_members. simpl. rewrite lookup_fmap.
  destruct (rooms st !! r); simpl; [done | by rewrite empty_difference_L].
Qed.

(** ** ObjectIds and their spelling *)

Lemma toString_inj (a b : ObjectId) : toString a = toString b → a = b.
Proof.
  intros Heq. apply (f_equal castObjectId) in Heq.
  rewrite !cast_toString in Heq. by injection Heq.
Qed.

Lemma cast_spelling (s : string) (a b : ObjectId) :
  castObjectId s = Some a → s = toString b → a = b.
Proof. intros Ha ->. rewrite cast_toString in Ha. by injection Ha. Qed.

(** ** Lists *)

Lemma find_none_of {A} (f : A → bool) (l : list A) :
  (∀ x, x ∈ l → f x = false) → find f l = None.
Proof.
  induction l as [|a l IH]; intros Hl; [done|]. simpl.
  rewrite (Hl a) by left. apply IH. intros x Hx. apply Hl. by right.
Qed.

Lemma find_some_of {A} (f : A → bool) (l : list A) (a : A) :
  find f l = Some a → a ∈ l ∧ f a = true.
Proof.
  intros Hf. apply find_some in Hf as [Hin Hf]. split; [|done].
  by apply list_elem_of_In.
Qed.

Lemma find_ext_bool {A} (f g : A → bool) (l : list A) :
  (∀ x, f x = g x) → find f l = find g l.
Proof.
  intros Hfg. induction l as [|a l IH]; [done|]. simpl. by rewrite Hfg, IH.
Qed.

Lemma find_exists {A} (f : A → bool) (l : list A) (a : A) :
  a ∈ l → f a = true → ∃ b, find f l = Some b ∧ b ∈ l ∧ f b = true.
Proof.
  intros Hin Hf. destruct (find f l) as [b|] eqn:Hfind.
  - exists b. split; [done|]. by apply find_some_of.
  - apply list_elem_of_In in Hin. apply (find_none _ _ Hfind) in Hin. congruence.
Qed.

Lemma find_app_none {A} (f : A → bool) (l1 l2 : list A) :
  find f l1 = None → find f (l1 ++ l2) = find f l2.
Proof.
  induction l1 as [|a l1 IH]; [done|]. simpl.
  destruct (f a); [done|]. exact IH.
Qed.

Lemma filter_fmap_none {A B} (f : A → B) (Q : B → Prop)
    `{∀ b, Decision (Q b)} (l : list A) :
  (∀ x, x ∈ l → ¬ Q (f x)) → filter Q (f <$> l) = [].
Proof.
  induction l as [|x l IH]; intros Hl; [done|]. simpl.
  rewrite filter_cons_False by (apply Hl; left).
  apply IH. intros y Hy. apply Hl. by right.
Qed.

(** Filtering the image of a list is filtering the list. *)
Lemma filter_fmap_by {A B} (f : A → B) (Q : B → Prop) (P : A → Prop)
    `{∀ b, Decision (Q b)} `{∀ a, Decision (P a)} (l : list A) :
  (∀ x, Q (f x) ↔ P x) → filter Q (f <$> l) = f <$> filter P l.
Proof.
  intros HQP. induction l as [|x l IH]; [done|]. rewrite fmap_cons.
  destruct (decide (P x)) as [Hx|Hx].
  - rewrite (filter_cons_True P) by done.
    rewrite (filter_cons_True Q) by (by apply HQP).
    by rewrite fmap_cons, IH.
  - rewrite (filter_cons_False P) by done.
    rewrite (filter_cons_False Q) by (by rewrite HQP). exact IH.
Qed.

Lemma fmap_const_replicate {A B} (g : A → B) (v : B) (l : list A) :
  (∀ x, g x = v) → g <$> l = replicate (length l) v.
Proof.
  intros Hg. induction l as [|x l IH]; [done|].
  rewrite fmap_cons, Hg, IH. done.
Qed.

(** In a list without repetition a key selects at most one entry. *)
Lemma count_NoDup {A B} `{EqDecision B} (f : A → B) (l : list A) (b : B) :
  (∀ x y, f x = f y → x = y) → NoDup l →
  length (filter (λ x, f x = b) l) = if decide (b ∈ f <$> l) then 1 else 0.
Proof.
  intros Hinj Hnd. induction l as [|x l IH]; [done|].
  apply NoDup_cons in Hnd as [Hx Hnd]. specialize (IH Hnd). rewrite fmap_cons.
  destruct (decide (f x = b)) as [Hfx|Hfx].
  - rewrite filter_cons_True by done. cbn [length].
    rewrite decide_True by (rewrite Hfx; left).
    rewrite IH. rewrite decide_False; [done|].
    intros (y & Hy & Hin)%list_elem_of_fmap. apply Hx.
    rewrite (Hinj x y); [done|]. congruence.
  - rewrite filter_cons_False by done. rewrite IH.
    destruct (decide (b ∈ f <$> l)) as [Hin|Hout].
    + rewrite decide_True; [done|]. by right.
    + rewrite decide_False; [done|]. intros [?|?]%elem_of_cons; congruence.
Qed.

Lemma occurrences_NoDup (p : ObjectId) (ps : list ObjectId) :
  NoDup ps → p ∈ ps → occurrences p ps = 1.
Proof.
  intros Hnd Hin. unfold occurrences.
  pose proof (count_NoDup (λ x : ObjectId, x) ps p (λ x y Hxy, Hxy) Hnd) as Hcount.
  rewrite list_fmap_id in Hcount. by rewrite decide_True in Hcount.
Qed.

Lemma updateOne_unique (doc c : Chat) (cs : list Chat) :
  NoDup (chat_id <$> cs) → c ∈ cs → chat_id doc = chat_id c →
  ∃ before after,
    cs = (before ++ c :: after)%list ∧
    updateOne doc cs = (before ++ doc :: after)%list.
Proof.
  intros Hnd Hin Hid. induction cs as [|d cs IH]; [by apply elem_of_nil in Hin|].
  simpl in Hnd. apply NoDup_cons in Hnd as [Hd Hnd]. simpl.
  apply elem_of_cons in Hin as [<-|Hin].
  - rewrite decide_True by done. by exists [], cs.
  - rewrite decide_False.
    2: { intros Heq. apply Hd. rewrite Heq, Hid. by apply list_elem_of_fmap_2. }
    destruct (IH Hnd Hin) as (before & after & -> & ->).
    by exists (d :: before), after.
Qed.

(** ** Running the monad *)

Lemma bind_normal {A B} (m : M A) (k : A → M B) st a st' log :
  m st = mkRun (Normal a) st' log →
  (m ≫= k) st =
  mkRun (completion (k a st')) (final (k a st')) (log ++ emitted (k a st'))%list.
Proof. intros Hm. unfold mbind, M_bind, bind. by rewrite Hm. Qed.

Lemma bind_throw {A B} (m : M A) (k : A → M B) st e st' log :
  m st = mkRun (Throw e) st' log →
  (m ≫= k) st = mkRun (Throw e) st' log.
Proof. intros Hm. unfold mbind, M_bind, bind. by rewrite Hm. Qed.

Lemma try_catch_normal {A} (m : M A) (h : string → M A) st a st' log :
  m st = mkRun (Normal a) st' log →
  try_catch m h st = mkRun (Normal a) st' log.
Proof. intros Hm. unfold try_catch. by rewrite Hm. Qed.

Lemma try_catch_throw {A} (m : M A) (h : string → M A) st e st' log :
  m st = mkRun (Throw e) st' log →
  try_catch m h st =
  mkRun (completion (h e st')) (final (h e st')) (log ++ emitted (h e st'))%list.
Proof. intros Hm. unfold try_catch. by rewrite Hm. Qed.

(** ** What each handler does, as equations *)

Lemma for_of_io_to_emit {A} (ps : list A) (key : A → string) ev st :
  for_of ps (λ p, io_to_emit (key p) ev) st =
  mkRun (Normal tt) st
    ((λ p, mkEmission (ToRoom (key p)) ev (room_members st (key p))) <$> ps).
Proof.
  induction ps as [|p ps IH]; [done|].
  simpl. unfold mbind, M_bind, bind. simpl. by rewrite IH.
Qed.

Lemma on_connection_run sid userId st :
  on_connection sid userId st =
  mkRun (Normal tt)
    (final (socket_join sid (user_room userId)
       (with_onlineUsers (JSMap.set userId sid) st)))
    [ mkEmission (ToSocket sid) (online_users (JSMap.keys (onlineUsers st)))
        {[ sid ]};
      mkEmission (BroadcastExcept sid) (user_online userId)
        (dom (sockets st) ∖ {[ sid ]}) ].
Proof. reflexivity. Qed.

(** The middleware never throws, emits nothing and touches nothing but the
    record of verifier calls. *)
Lemma auth_middleware_frame env token st :
  ∃ admission calls,
    auth_middleware env token st =
    mkRun (Normal admission) (with_verifier_calls (λ _, calls) st) [].
Proof.
  unfold auth_middleware. destruct (falsy token).
  { exists (Rejected "Unauthorized"), (verifier_calls st). by destruct st. }
  unfold try_catch, mbind, M_bind, bind, User_findOne, awaited; simpl.
  destruct (verifyToken env (default "" token)) as [sub|]; simpl;
    [destruct (db_throws env User_findOne_op); simpl;
       [|destruct (find _ (users st)); simpl]|];
    eexists _, _; reflexivity.
Qed.

(** Chat.findOne, path by path. *)
Lemma Chat_findOne_run env chatId userId st :
  Chat_findOne env chatId userId st =
  match castObjectId chatId, castObjectId userId with
  | Some oid, Some uid =>
      if db_throws env Chat_findOne_op then mkRun (Throw "database error") st []
      else
        mkRun (Normal (find (λ c, bool_decide (chat_id c = oid
                                                ∧ uid ∈ participants c))
                            (chats st))) st []
  | _, _ => mkRun (Throw "CastError") st []
  end.
Proof.
  unfold Chat_findOne, cast_id, awaited, mbind, M_bind, bind.
  destruct (castObjectId chatId) as [oid|]; [|done].
  destruct (castObjectId userId) as [uid|]; [|done].
  by destruct (db_throws env Chat_findOne_op).
Qed.

Lemma Message_create_run env chatId userId txt st oid uid :
  castObjectId chatId = Some oid → castObjectId userId = Some uid →
  Message_create env chatId userId txt st =
  if db_throws env Message_create_op then mkRun (Throw "database error") st []
  else
    mkRun (Normal (created_message env uid oid txt))
      (with_messages (λ ms, (ms ++ [created_message env uid oid txt])%list) st) [].
Proof.
  intros Hc Hu. unfold Message_create, cast_id, awaited, mbind, M_bind, bind.
  rewrite Hc, Hu. by destruct (db_throws env Message_create_op).
Qed.

(** The send handler, path by path: the two casts, the lookup, and the three
    awaited calls that follow it. *)
Lemma on_send_message_run env sid u chatId txt st :
  on_send_message env sid u chatId txt st =
  match castObjectId chatId, castObjectId u with
  | Some oid, Some uid =>
      if db_throws env Chat_findOne_op then mkRun (Normal tt) st [send_failure sid]
      else
        match find (λ c, bool_decide (chat_id c = oid ∧ uid ∈ participants c))
                   (chats st) with
        | None =>
            mkRun (Normal tt) st
              [ mkEmission (ToSocket sid) (socket_error "Chat not found") {[ sid ]} ]
        | Some c =>
            let message := created_message env uid oid txt in
            let st1 := with_messages (λ ms, (ms ++ [message])%list) st in
            let st2 := with_chats (updateOne (touched_chat env c)) st1 in
            let populated := populate_sender (users st) message in
            if db_throws env Message_create_op
            then mkRun (Normal tt) st [send_failure sid]
            else if db_throws env Chat_save_op
            then mkRun (Normal tt) st1 [send_failure sid]
            else if db_throws env Message_populate_op
            then mkRun (Normal tt) st2 [send_failure sid]
            else
              mkRun (Normal tt) st2
                (mkEmission (ToRoom (chat_room chatId)) (new_message populated)
                   (room_members st (chat_room chatId))
                 :: ((λ p, mkEmission (ToRoom (user_room (toString p)))
                             (new_message populated)
                             (room_members st (user_room (toString p))))
                       <$> participants c))
        end
  | _, _ => mkRun (Normal tt) st [send_failure sid]
  end.
Proof.
  unfold on_send_message, try_catch.
  pose proof (Chat_findOne_run env chatId u st) as Hrun.
  destruct (castObjectId chatId) as [oid|] eqn:Hc.
  2: { by erewrite bind_throw by exact Hrun. }
  destruct (castObjectId u) as [uid|] eqn:Hu.
  2: { by erewrite bind_throw by exact Hrun. }
  destruct (db_throws env Chat_findOne_op) eqn:H0.
  { by erewrite bind_throw by exact Hrun. }
  erewrite bind_normal by exact Hrun. clear Hrun.
  destruct (find _ (chats st)) as [c|] eqn:Hfind; [|done].
  cbv zeta.
  pose proof (Message_create_run env chatId u txt st oid uid Hc Hu) as Hrun.
  destruct (db_throws env Message_create_op) eqn:H1.
  { by erewrite bind_throw by exact Hrun. }
  erewrite bind_normal by exact Hrun. clear Hrun. reduce_run.
  unfold Chat_save, Message_populate, awaited.
  destruct (db_throws env Chat_save_op) eqn:H2.
  { by erewrite bind_throw by reflexivity. }
  erewrite bind_normal by reflexivity. reduce_run.
  destruct (db_throws env Message_populate_op) eqn:H3.
  { by erewrite bind_throw by reflexivity. }
  erewrite bind_normal by reflexivity. reduce_run.
  erewrite bind_normal by reflexivity. reduce_run.
  by rewrite for_of_io_to_emit.
Qed.

Lemma on_send_message_success env sid u chatId txt st c uid oid :
  castObjectId u = Some uid → castObjectId chatId = Some oid →
  send_succeeds env uid oid st c →
  let message := created_message env uid oid txt in
  let populated := populate_sender (users st) message in
  on_send_message env sid u chatId txt st =
  mkRun (Normal tt)
    (with_chats (updateOne (touched_chat env c))
       (with_messages (λ ms, (ms ++ [message])%list) st))
    (mkEmission (ToRoom (chat_room chatId)) (new_message populated)
       (room_members st (chat_room chatId))
     :: ((λ p, mkEmission (ToRoom (user_room (toString p))) (new_message populated)
                 (room_members st (user_room (toString p)))) <$> participants c)).
Proof.
  intros Hu Hc (Hfind & H1 & H2 & H3 & H4) message populated.
  rewrite on_send_message_run, Hu, Hc, H1, Hfind. cbv zeta.
  by rewrite H2, H3, H4.
Qed.

(** Whatever happens in a send, only the Chat and Message collections can
    change, and the handler completes. *)
Lemma on_send_message_frame env sid userId chatId txt st :
  ∃ cs ms log,
    on_send_message env sid userId chatId txt st =
    mkRun (Normal tt) (with_chats (λ _, cs) (with_messages (λ _, ms) st)) log.
Proof.
  rewrite on_send_message_run.
  assert (Hsame : ∀ log,
    ∃ cs ms log', mkRun (Normal tt) st log =
      mkRun (Normal tt) (with_chats (λ _, cs) (with_messages (λ _, ms) st)) log').
  { intros log. exists (chats st), (messages st), log. by destruct st. }
  destruct (castObjectId chatId) as [oid|]; [|apply Hsame].
  destruct (castObjectId userId) as [uid|]; [|apply Hsame].
  destruct (db_throws env Chat_findOne_op); [apply Hsame|].
  destruct (find _ (chats st)) as [c|]; [|apply Hsame]. cbv zeta.
  destruct (db_throws env Message_create_op); [apply Hsame|].
  destruct (db_throws env Chat_save_op).
  { eexists (chats st), _, _. reflexivity. }
  destruct (db_throws env Message_populate_op); eexists _, _, _; reflexivity.
Qed.

(** Chat.findById, path by path. *)
Lemma Chat_findById_run env chatId st :
  Chat_findById env chatId st =
  match castObjectId chatId with
  | Some oid =>
      if db_throws env Chat_findById_op then mkRun (Throw "database error") st []
      else
        mkRun (Normal (find (λ c, bool_decide (chat_id c = oid)) (chats st))) st []
  | None => mkRun (Throw "CastError") st []
  end.
Proof.
  unfold Chat_findById, cast_id, awaited, mbind, M_bind, bind.
  destruct (castObjectId chatId) as [oid|]; [|done].
  by destruct (db_throws env Chat_findById_op).
Qed.

(** The typing handler, path by path. *)
Lemma on_typing_run env sid u chatId isTyping st :
  on_typing env sid u chatId isTyping st =
  mkRun (Normal tt) st
    (mkEmission (ToRoomExcept (chat_room chatId) sid) (typing u chatId isTyping)
       (room_members st (chat_room chatId) ∖ {[ sid ]})
     :: match castObjectId chatId with
        | None => []
        | Some oid =>
            if db_throws env Chat_findById_op then []
            else
              match find (λ c, bool_decide (chat_id c = oid)) (chats st) with
              | Some c =>
                  match find (λ p, bool_decide (toString p ≠ u))
                             (participants c) with
                  | Some other =>
                      [ mkEmission (ToRoom (user_room (toString other)))
                          (typing u chatId isTyping)
                          (room_members st (user_room (toString other))) ]
                  | None => []
                  end
              | None => []
              end
        end).
Proof.
  unfold on_typing. cbv zeta.
  erewrite bind_normal by reflexivity. reduce_run. unfold try_catch.
  pose proof (Chat_findById_run env chatId st) as Hrun.
  destruct (castObjectId chatId) as [oid|].
  2: { by erewrite bind_throw by exact Hrun. }
  destruct (db_throws env Chat_findById_op).
  { by erewrite bind_throw by exact Hrun. }
  erewrite bind_normal by exact Hrun. clear Hrun.
  destruct (find _ (chats st)) as [c|]; [|done].
  by destruct (find _ (participants c)).
Qed.

(** A typing signal changes no state and completes, whatever the lookup does. *)
Lemma on_typing_frame env sid userId chatId isTyping st :
  ∃ log, on_typing env sid userId chatId isTyping st = mkRun (Normal tt) st log.
Proof. rewrite on_typing_run. by eexists. Qed.

Arguments on_send_message : simpl never.
Arguments on_typing : simpl never.
Arguments on_connection : simpl never.
Arguments on_disconnect : simpl never.
Arguments auth_middleware : simpl never.

(** ** Each input, run *)

Lemma step_unbound_connect env sid token st :
  sockets st !! sid = None →
  ∃ admission calls,
    auth_middleware env token st =
      mkRun (Normal admission) (with_verifier_calls (λ _, calls) st) [] ∧
    handle env (Connect sid token) st =
    match admission with
    | Rejected _ => mkRun (Normal tt) (with_verifier_calls (λ _, calls) st) []
    | Accepted userId =>
        on_connection sid userId
          (with_sockets (<[sid := userId]>) (with_verifier_calls (λ _, calls) st))
    end.
Proof.
  intros Hnew. destruct (auth_middleware_frame env token st) as (a & calls & Ha).
  exists a, calls. split; [done|].
  crack_handle. rewrite Hnew. simpl. unfold mbind, M_bind, bind. rewrite Ha. simpl.
  destruct a; [|done]. by rewrite on_connection_run.
Qed.

Lemma handle_connect_bound env sid token u st :
  sockets st !! sid = Some u →
  handle env (Connect sid token) st = mkRun (Normal tt) st [].
Proof. intros Hs. crack_handle. by rewrite Hs. Qed.

Lemma handle_join env sid chatId st :
  handle env (JoinChat sid chatId) st =
  match sockets st !! sid with
  | Some _ => mkRun (Normal tt) (final (socket_join sid (chat_room chatId) st)) []
  | None => mkRun (Normal tt) st []
  end.
Proof. crack_handle. by destruct (sockets st !! sid). Qed.

Lemma handle_leave env sid chatId st :
  handle env (LeaveChat sid chatId) st =
  match sockets st !! sid with
  | Some _ => mkRun (Normal tt) (final (socket_leave sid (chat_room chatId) st)) []
  | None => mkRun (Normal tt) st []
  end.
Proof. crack_handle. by destruct (sockets st !! sid). Qed.

Lemma handle_send env sid chatId txt st :
  handle env (SendMessage sid chatId txt) st =
  match sockets st !! sid with
  | Some u => on_send_message env sid u chatId txt st
  | None => mkRun (Normal tt) st []
  end.
Proof.
  crack_handle. destruct (sockets st !! sid) as [u|]; reduce_run; [|done].
  by destruct (on_send_message_frame env sid u chatId txt st) as (cs & ms & log & ->).
Qed.

Lemma handle_typing env sid chatId isTyping st :
  handle env (TypingSignal sid chatId isTyping) st =
  match sockets st !! sid with
  | Some u => on_typing env sid u chatId isTyping st
  | None => mkRun (Normal tt) st []
  end.
Proof.
  crack_handle. destruct (sockets st !! sid) as [u|]; reduce_run; [|done].
  by destruct (on_typing_frame env sid u chatId isTyping st) as (log & ->).
Qed.

Lemma handle_disconnect env sid userId st :
  sockets st !! sid = Some userId →
  handle env (Disconnect sid) st =
  mkRun (Normal tt)
    (with_onlineUsers (JSMap.delete userId) (final (socket_cleanup sid st)))
    [ mkEmission (BroadcastExcept sid) (user_offline userId)
        (dom (sockets st) ∖ {[ sid ]}) ].
Proof.
  intros Hs. crack_handle. rewrite Hs. simpl.
  unfold mbind, M_bind, bind. simpl.
  rewrite dom_delete_L. do 3 f_equal.
  apply set_eq. intros x. rewrite !elem_of_difference. tauto.
Qed.

Lemma handle_disconnect_unbound env sid st :
  sockets st !! sid = None →
  handle env (Disconnect sid) st = mkRun (Normal tt) st [].
Proof. intros Hs. crack_handle. by rewrite Hs. Qed.

(** ** Invariant: personal rooms hold exactly the sockets of their user *)

Lemma personal_rooms_start st : fresh_process st → personal_rooms_inv st.
Proof.
  intros (_ & Hs & Hr) u sid. unfold room_members. rewrite Hs, Hr, !lookup_empty.
  simpl. split; [set_solver | done].
Qed.

Lemma personal_rooms_step env i st :
  personal_rooms_inv st → personal_rooms_inv (step env i st).
Proof.
  intros Hinv. destruct i as [sid token|sid c|sid c|sid c txt|sid c ty|sid].
  - destruct (sockets st !! sid) as [u0|] eqn:Hs.
    { crack_handle. by rewrite Hs. }
    destruct (step_unbound_connect env sid token st Hs) as (a & calls & _ & Hh).
    unfold step. rewrite Hh. destruct a as [u0|]; [|exact Hinv].
    intros u s. rewrite on_connection_run. cbn [final].
    rewrite room_members_join.
    change (room_members (with_onlineUsers _ ?x)) with (room_members x).
    change (room_members (with_sockets _ ?x)) with (room_members x).
    change (room_members (with_verifier_calls _ ?x)) with (room_members x).
    simpl.
    destruct (decide (user_room u0 = user_room u)) as [Heq|Hne].
    + apply user_room_inj in Heq as ->.
      rewrite elem_of_union, elem_of_singleton.
      destruct (decide (s = sid)) as [->|Hsid].
      * rewrite lookup_insert_eq. tauto.
      * rewrite lookup_insert_ne by done. rewrite <- (Hinv u s).
        unfold room_members; simpl. tauto.
    + destruct (decide (s = sid)) as [->|Hsid].
      * rewrite lookup_insert_eq.
        assert (H := Hinv u sid). unfold room_members in *; simpl in *.
        rewrite H, Hs. split; [done|]. intros [= ->]. done.
      * rewrite lookup_insert_ne by done. apply (Hinv u s).
  - crack_handle. destruct (sockets st !! sid) as [u0|]; reduce_run; [|done].
    intros u s. rewrite (room_members_join sid (chat_room c) st).
    rewrite decide_False by apply chat_room_not_user_room. apply Hinv.
  - crack_handle. destruct (sockets st !! sid) as [u0|]; reduce_run; [|done].
    intros u s. rewrite (room_members_leave sid (chat_room c) st).
    rewrite decide_False by apply chat_room_not_user_room. apply Hinv.
  - crack_handle. destruct (sockets st !! sid) as [u0|]; reduce_run; [|done].
    destruct (on_send_message_frame env sid u0 c txt st) as (cs & ms & log & ->).
    exact Hinv.
  - crack_handle. destruct (sockets st !! sid) as [u0|]; reduce_run; [|done].
    destruct (on_typing_frame env sid u0 c ty st) as (log & ->). exact Hinv.
  - destruct (sockets st !! sid) as [u0|] eqn:Hs.
    2: { crack_handle. by rewrite Hs. }
    unfold step. rewrite (handle_disconnect _ _ _ _ Hs). cbn [final].
    intros u s.
    change (room_members (with_onlineUsers _ ?x)) with (room_members x).
    rewrite room_members_cleanup. simpl.
    rewrite elem_of_difference, elem_of_singleton, (Hinv u s).
    destruct (decide (s = sid)) as [->|Hsid].
    + rewrite lookup_delete_eq. intuition congruence.
    + rewrite lookup_delete_ne by done. tauto.
Qed.

Lemma reachable_run trace st : reachable st → reachable (run trace st).
Proof.
  revert st. induction trace as [|[env i] trace IH]; intros st Hst; [done|].
  simpl. apply IH. by apply reachable_step.
Qed.

Lemma reachable_personal_rooms st : reachable st → personal_rooms_inv st.
Proof.
  induction 1 as [st Hstart|env i st _ IH].
  - by apply personal_rooms_start.
  - by apply personal_rooms_step.
Qed.

(** ** Who receives what *)

Lemma ToRoom_inj r r' : ToRoom r = ToRoom r' → r = r'.
Proof. by intros [= ->]. Qed.

Lemma except_self (x : string) (X : gset string) : x ∉ X ∖ {[ x ]}.
Proof. rewrite elem_of_difference, elem_of_singleton. tauto. Qed.

Lemma received_cons sid e log :
  received sid (e :: log) =
  if decide (sid ∈ recipients e) then event e :: received sid log
  else received sid log.
Proof.
  unfold received. rewrite filter_cons.
  by destruct (decide (sid ∈ recipients e)).
Qed.

Lemma received_hit sid e log :
  sid ∈ recipients e → received sid (e :: log) = event e :: received sid log.
Proof. intros. by rewrite received_cons, decide_True. Qed.

Lemma received_miss sid e log :
  sid ∉ recipients e → received sid (e :: log) = received sid log.
Proof. intros. by rewrite received_cons, decide_False. Qed.

(** ** A socket keeps its identity until it disconnects *)

Lemma step_keeps_socket env i st sid u :
  sockets st !! sid = Some u → i ≠ Disconnect sid →
  sockets (step env i st) !! sid = Some u.
Proof.
  intros Hs Hi. destruct i as [s token|s c|s c|s c txt|s c ty|s].
  - destruct (sockets st !! s) as [u0|] eqn:Hb.
    { crack_handle. by rewrite Hb. }
    destruct (step_unbound_connect env s token st Hb) as (a & calls & _ & Hh).
    unfold step. rewrite Hh. destruct a as [u0|]; [|exact Hs].
    rewrite on_connection_run. simpl.
    rewrite lookup_insert_ne; [done|]. intros ->. congruence.
  - crack_handle. by destruct (sockets st !! s).
  - crack_handle. by destruct (sockets st !! s).
  - crack_handle. destruct (sockets st !! s) as [u0|]; reduce_run; [|done].
    by destruct (on_send_message_frame env s u0 c txt st) as (cs & ms & log & ->).
  - crack_handle. destruct (sockets st !! s) as [u0|]; reduce_run; [|done].
    by destruct (on_typing_frame env s u0 c ty st) as (log & ->).
  - destruct (sockets st !! s) as [u0|] eqn:Hb.
    2: { crack_handle. by rewrite Hb. }
    unfold step. rewrite (handle_disconnect _ _ _ _ Hb). simpl.
    rewrite lookup_delete_ne; [done|]. intros ->. done.
Qed.

Lemma run_keeps_socket trace st sid u :
  sockets st !! sid = Some u →
  (∀ env, (env, Disconnect sid) ∉ trace) →
  sockets (run trace st) !! sid = Some u.
Proof.
  revert st. induction trace as [|[env i] trace IH]; intros st Hs Hno; [done|].
  simpl. apply IH.
  - apply step_keeps_socket; [done|]. intros ->. apply (Hno env). left.
  - intros env' Hin. apply (Hno env'). by right.
Qed.

Lemma step_connect_accepted env sid token u st :
  sockets st !! sid = None →
  completion (auth_middleware env token st) = Normal (Accepted u) →
  ∃ calls,
    handle env (Connect sid token) st =
    on_connection sid u
      (with_sockets (<[sid := u]>) (with_verifier_calls (λ _, calls) st)).
Proof.
  intros Hnew Hadm.
  destruct (step_unbound_connect env sid token st Hnew) as (a & calls & Ha & Hh).
  rewrite Ha in Hadm. simpl in Hadm. injection Hadm as ->. by exists calls.
Qed.

Lemma step_keeps_presence env i st :
  (∀ sid token, i ≠ Connect sid token) → (∀ sid, i ≠ Disconnect sid) →
  onlineUsers (step env i st) = onlineUsers st ∧
  sockets (step env i st) = sockets st.
Proof.
  intros Hc Hd. unfold step.
  destruct i as [sid token|sid c|sid c|sid c txt|sid c ty|sid].
  - by destruct (Hc sid token).
  - rewrite handle_join. by destruct (sockets st !! sid).
  - rewrite handle_leave. by destruct (sockets st !! sid).
  - rewrite handle_send. destruct (sockets st !! sid) as [u|]; [|done].
    by destruct (on_send_message_frame env sid u c txt st) as (cs & ms & log & ->).
  - rewrite handle_typing. destruct (sockets st !! sid) as [u|]; [|done].
    by destruct (on_typing_frame env sid u c ty st) as (log & ->).
  - by destruct (Hd sid).
Qed.

(** ** Invariant: presence entries point at live sockets of their identity *)

Lemma presence_entries_start st : fresh_process st → presence_entries_live st.
Proof. intros (Ho & _) u s. by rewrite Ho. Qed.

Lemma presence_entries_step env i st :
  presence_entries_live st → presence_entries_live (step env i st).
Proof.
  intros Hinv. destruct i as [sid token|sid c|sid c|sid c txt|sid c ty|sid].
  - destruct (sockets st !! sid) as [u0|] eqn:Hb.
    { crack_handle. by rewrite Hb. }
    destruct (step_unbound_connect env sid token st Hb) as (a & calls & _ & Hh).
    unfold step. rewrite Hh. destruct a as [u0|]; [|exact Hinv].
    rewrite on_connection_run. intros u s. simpl.
    destruct (decide (u0 = u)) as [->|Hne].
    + rewrite JSMapFacts.get_set_eq. intros [= <-]. apply lookup_insert_eq.
    + rewrite JSMapFacts.get_set_ne by done. intros Hu.
      apply Hinv in Hu. rewrite lookup_insert_ne; [done|]. congruence.
  - crack_handle. by destruct (sockets st !! sid).
  - crack_handle. by destruct (sockets st !! sid).
  - crack_handle. destruct (sockets st !! sid) as [u0|]; reduce_run; [|done].
    by destruct (on_send_message_frame env sid u0 c txt st) as (cs & ms & log & ->).
  - crack_handle. destruct (sockets st !! sid) as [u0|]; reduce_run; [|done].
    by destruct (on_typing_frame env sid u0 c ty st) as (log & ->).
  - destruct (sockets st !! sid) as [u0|] eqn:Hb.
    2: { crack_handle. by rewrite Hb. }
    unfold step. rewrite (handle_disconnect _ _ _ _ Hb). intros u s. simpl.
    destruct (decide (u0 = u)) as [->|Hne].
    + by rewrite JSMapFacts.get_delete_eq.
    + rewrite JSMapFacts.get_delete_ne by done. intros Hu.
      apply Hinv in Hu. rewrite lookup_delete_ne; [done|]. congruence.
Qed.

Lemma reachable_presence_entries st : reachable st → presence_entries_live st.
Proof.
  induction 1 as [st Hstart|env i st _ IH].
  - by apply presence_entries_start.
  - by apply presence_entries_step.
Qed.

(** ** Invariant: sockets are bound to existing users *)

Lemma accepted_is_a_user env token st u :
  completion (auth_middleware env token st) = Normal (Accepted u) →
  ∃ usr, usr ∈ users st ∧ toString (user_id usr) = u.
Proof.
  unfold auth_middleware. destruct (falsy token); [done|].
  unfold try_catch, mbind, M_bind, bind, User_findOne, awaited. simpl.
  destruct (verifyToken env (default "" token)) as [sub|]; simpl; [|done].
  destruct (db_throws env User_findOne_op); simpl; [done|].
  destruct (find _ (users st)) as [usr|] eqn:Hfind; simpl; [|done].
  intros [= <-]. apply find_some_of in Hfind as [Hin _]. by exists usr.
Qed.

Lemma step_keeps_users env i st : users (step env i st) = users st.
Proof.
  unfold step. destruct i as [sid token|sid c|sid c|sid c txt|sid c ty|sid].
  - destruct (sockets st !! sid) as [u0|] eqn:Hb.
    { by rewrite (handle_connect_bound env sid token u0 st Hb). }
    destruct (step_unbound_connect env sid token st Hb) as (a & calls & _ & ->).
    destruct a as [u0|]; [by rewrite on_connection_run | done].
  - rewrite handle_join. by destruct (sockets st !! sid).
  - rewrite handle_leave. by destruct (sockets st !! sid).
  - rewrite handle_send. destruct (sockets st !! sid) as [u|]; [|done].
    by destruct (on_send_message_frame env sid u c txt st) as (cs & ms & log & ->).
  - rewrite handle_typing. destruct (sockets st !! sid) as [u|]; [|done].
    by destruct (on_typing_frame env sid u c ty st) as (log & ->).
  - destruct (sockets st !! sid) as [u|] eqn:Hb.
    + by rewrite (handle_disconnect _ _ _ _ Hb).
    + by rewrite (handle_disconnect_unbound _ _ _ Hb).
Qed.

Lemma sockets_are_users_step env i st :
  sockets_are_users st → sockets_are_users (step env i st).
Proof.
  intros Hinv s u. rewrite step_keeps_users.
  destruct i as [sid token|sid c|sid c|sid c txt|sid c ty|sid].
  - unfold step. destruct (sockets st !! sid) as [u0|] eqn:Hb.
    { rewrite (handle_connect_bound env sid token u0 st Hb). apply Hinv. }
    destruct (step_unbound_connect env sid token st Hb) as (a & calls & Ha & ->).
    destruct a as [u0|]; [|apply Hinv].
    rewrite on_connection_run. simpl.
    destruct (decide (sid = s)) as [->|Hne].
    + rewrite lookup_insert_eq. intros [= <-].
      apply (accepted_is_a_user env token st). by rewrite Ha.
    + rewrite lookup_insert_ne by done. apply Hinv.
  - destruct (step_keeps_presence env (JoinChat sid c) st) as [_ ->]; [done..|apply Hinv].
  - destruct (step_keeps_presence env (LeaveChat sid c) st) as [_ ->]; [done..|apply Hinv].
  - destruct (step_keeps_presence env (SendMessage sid c txt) st) as [_ ->];
      [done..|apply Hinv].
  - destruct (step_keeps_presence env (TypingSignal sid c ty) st) as [_ ->];
      [done..|apply Hinv].
  - unfold step. destruct (sockets st !! sid) as [u0|] eqn:Hb.
    2: { rewrite (handle_disconnect_unbound _ _ _ Hb). apply Hinv. }
    rewrite (handle_disconnect _ _ _ _ Hb). simpl.
    destruct (decide (sid = s)) as [->|Hne].
    + by rewrite lookup_delete_eq.
    + rewrite lookup_delete_ne by done. apply Hinv.
Qed.

Lemma reachable_sockets_are_users st : reachable st → sockets_are_users st.
Proof.
  induction 1 as [st (_ & Hs & _)|env i st _ IH].
  - intros s u. by rewrite Hs, lookup_empty.
  - by apply sockets_are_users_step.
Qed.

(** ** Presence *)

(** C3. When admission succeeds, the connection handler leaves the identity
    mapped to the connection's handle in [onlineUsers], so the identity is
    among the keys a snapshot lists; and whatever the server handles in
    between, once that connection disconnects the identity has no entry. *)
Theorem accepted_identity_registered_until_disconnect env sid token u st :
  sockets st !! sid = None →
  completion (auth_middleware env token st) = Normal (Accepted u) →
  let st1 := step env (Connect sid token) st in
  JSMap.get u (onlineUsers st1) = Some sid ∧
  u ∈ JSMap.keys (onlineUsers st1) ∧
  ∀ trace env',
    (∀ e, (e, Disconnect sid) ∉ trace) →
    let st2 := step env' (Disconnect sid) (run trace st1) in
    JSMap.get u (onlineUsers st2) = None ∧ u ∉ JSMap.keys (onlineUsers st2).
Proof.
  intros Hnew Hadm st1.
  destruct (step_connect_accepted env sid token u st Hnew Hadm) as (calls & Hh).
  assert (Hget : JSMap.get u (onlineUsers st1) = Some sid).
  { unfold st1, step. rewrite Hh, on_connection_run. simpl.
    apply JSMapFacts.get_set_eq. }
  assert (Hsock : sockets st1 !! sid = Some u).
  { unfold st1, step. rewrite Hh, on_connection_run. simpl.
    apply lookup_insert_eq. }
  split; [done|]. split.
  { apply JSMapFacts.elem_of_keys. rewrite Hget. by eexists. }
  intros trace env' Hno st2.
  assert (Hgone : JSMap.get u (onlineUsers st2) = None).
  { unfold st2, step.
    rewrite (handle_disconnect env' sid u (run trace st1)
               (run_keeps_socket trace st1 sid u Hsock Hno)).
    simpl. apply JSMapFacts.get_delete_eq. }
  split; [done|].
  rewrite JSMapFacts.elem_of_keys, Hgone. by intros [? ?].
Qed.

Lemma keys_set x k v m :
  x ∈ JSMap.keys (JSMap.set k v m) ↔ x = k ∨ x ∈ JSMap.keys m.
Proof.
  rewrite !JSMapFacts.elem_of_keys. destruct (decide (k = x)) as [->|Hne].
  - rewrite JSMapFacts.get_set_eq. split; [by left | by eexists].
  - rewrite JSMapFacts.get_set_ne by done. split; [by right|].
    intros [->|?]; done.
Qed.

(** C4, as the code has it. An accepted connection is sent exactly one
    online-users event; its list is the keys of [onlineUsers] as they are
    before this connection is registered, so it holds the connection's own
    identity exactly when that identity already has an entry, which is when
    another, still connected socket of the same identity is registered.
    Every other connected socket gets the user-online broadcast and no
    online-users event. *)
Theorem online_users_snapshot_precedes_registration env sid token u st :
  reachable st →
  sockets st !! sid = None →
  completion (auth_middleware env token st) = Normal (Accepted u) →
  let log := outbox env (Connect sid token) st in
  let st1 := step env (Connect sid token) st in
  received sid log = [online_users (JSMap.keys (onlineUsers st))] ∧
  (∀ other, other ≠ sid →
     received other log =
     if decide (is_Some (sockets st !! other)) then [user_online u] else []) ∧
  (u ∈ JSMap.keys (onlineUsers st) ↔
   ∃ s, JSMap.get u (onlineUsers st) = Some s ∧
        sockets st !! s = Some u ∧ s ≠ sid) ∧
  (∀ x, x ∈ JSMap.keys (onlineUsers st1) ↔
        x = u ∨ x ∈ JSMap.keys (onlineUsers st)).
Proof.
  intros Hreach Hnew Hadm log st1.
  assert (Hlive := reachable_presence_entries st Hreach).
  destruct (step_connect_accepted env sid token u st Hnew Hadm) as (calls & Hh).
  unfold log, st1, outbox, step. rewrite Hh, on_connection_run. simpl.
  split; [|split; [|split]].
  - rewrite received_hit by (simpl; set_solver).
    rewrite received_miss by (simpl; apply except_self). done.
  - intros other Hother.
    rewrite received_miss by (simpl; rewrite elem_of_singleton; done).
    destruct (decide (is_Some (sockets st !! other))) as [Hin|Hout].
    + rewrite received_hit; [done|]. simpl.
      rewrite elem_of_difference, elem_of_dom, lookup_insert_ne by done.
      split; [done | set_solver].
    + rewrite received_miss; [done|]. simpl.
      rewrite elem_of_difference, elem_of_dom, lookup_insert_ne by done. tauto.
  - rewrite JSMapFacts.elem_of_keys. split.
    + intros [s Hs]. exists s. split; [done|]. split; [by apply Hlive|].
      apply Hlive in Hs. congruence.
    + intros (s & Hs & _). by exists s.
  - intros x. apply keys_set.
Qed.

(** C5. Identity [I] is registered with connection [c1]; a second connection
    [c2] of [I] is admitted and takes over the entry; later, with both still
    connected, [c1] disconnects.  The disconnect handler deletes [I]'s entry
    and broadcasts user-offline for [I], which [c2] itself receives, although
    [c2] is still connected: presence and live connections no longer
    correspond. *)
Theorem disconnect_unregisters_by_identity_alone
    env env' c1 c2 token I st trace :
  sockets st !! c1 = Some I →
  JSMap.get I (onlineUsers st) = Some c1 →
  sockets st !! c2 = None →
  completion (auth_middleware env token st) = Normal (Accepted I) →
  (∀ e, (e, Disconnect c1) ∉ trace) →
  (∀ e, (e, Disconnect c2) ∉ trace) →
  let st1 := step env (Connect c2 token) st in
  let st2 := step env' (Disconnect c1) (run trace st1) in
  let log := outbox env' (Disconnect c1) (run trace st1) in
  JSMap.get I (onlineUsers st1) = Some c2 ∧
  JSMap.get I (onlineUsers st2) = None ∧
  sockets st2 !! c2 = Some I ∧
  (∃ to, log = [mkEmission (BroadcastExcept c1) (user_offline I) to]) ∧
  received c2 log = [user_offline I] ∧
  ¬ presence_matches_connections st2.
Proof.
  intros Hc1 Hreg Hc2 Hadm Hno1 Hno2 st1 st2 log.
  assert (Hne : c1 ≠ c2) by congruence.
  destruct (step_connect_accepted env c2 token I st Hc2 Hadm) as (calls & Hh).
  assert (Hs1 : sockets st1 = <[c2 := I]> (sockets st)).
  { unfold st1, step. by rewrite Hh, on_connection_run. }
  assert (Hc1' : sockets (run trace st1) !! c1 = Some I).
  { apply run_keeps_socket; [|done]. rewrite Hs1. by rewrite lookup_insert_ne. }
  assert (Hc2' : sockets (run trace st1) !! c2 = Some I).
  { apply run_keeps_socket; [|done]. rewrite Hs1. apply lookup_insert_eq. }
  assert (Hget1 : JSMap.get I (onlineUsers st1) = Some c2).
  { unfold st1, step. rewrite Hh, on_connection_run. simpl.
    apply JSMapFacts.get_set_eq. }
  assert (Hget2 : JSMap.get I (onlineUsers st2) = None).
  { unfold st2, step. rewrite (handle_disconnect _ _ _ _ Hc1'). simpl.
    apply JSMapFacts.get_delete_eq. }
  assert (Hlive : sockets st2 !! c2 = Some I).
  { unfold st2, step. rewrite (handle_disconnect _ _ _ _ Hc1'). simpl.
    by rewrite lookup_delete_ne. }
  repeat split; try done.
  - unfold log, outbox. rewrite (handle_disconnect _ _ _ _ Hc1'). by eexists.
  - unfold log, outbox. rewrite (handle_disconnect _ _ _ _ Hc1'). simpl.
    rewrite received_hit; [done|]. simpl.
    rewrite elem_of_difference, elem_of_dom, Hc2', elem_of_singleton.
    split; [done | congruence].
  - intros Hcorr. destruct (Hcorr I) as [_ Hback].
    destruct Hback as [x Hx]; [by exists c2|]. congruence.
Qed.

(** C6. On a disconnect every other connected socket is delivered exactly one
    user-offline event naming the departing identity; the departing socket,
    and anything not connected, is delivered nothing. *)
Theorem disconnect_broadcasts_user_offline env sid u st :
  sockets st !! sid = Some u →
  let log := outbox env (Disconnect sid) st in
  (∀ other, other ≠ sid → is_Some (sockets st !! other) →
     received other log = [user_offline u]) ∧
  received sid log = [] ∧
  (∀ x, sockets st !! x = None → received x log = []).
Proof.
  intros Hs log. unfold log, outbox. rewrite (handle_disconnect _ _ _ _ Hs).
  simpl. repeat split.
  - intros other Hother Hin. rewrite received_hit; [done|]. simpl.
    rewrite elem_of_difference, elem_of_dom. split; [done | set_solver].
  - rewrite received_miss; [done|]. simpl. apply except_self.
  - intros x Hx. rewrite received_miss; [done|]. simpl.
    rewrite elem_of_difference, elem_of_dom, Hx. intros [[? ?] _]. done.
Qed.

(** ** Admission *)

Lemma auth_middleware_falsy env token st :
  falsy token = true →
  auth_middleware env token st = mkRun (Normal (Rejected "Unauthorized")) st [].
Proof. intros H. unfold auth_middleware. by rewrite H. Qed.

Lemma step_connect_falsy env sid token st :
  falsy token = true →
  handle env (Connect sid token) st = mkRun (Normal tt) st [].
Proof.
  intros H. crack_handle. destruct (sockets st !! sid); [done|].
  reduce_run. unfold mbind, M_bind, bind.
  by rewrite (auth_middleware_falsy env token st H).
Qed.

(** A step gives no presence entry the handle [sid] unless it is a handshake
    of [sid] that carries a credential. *)
Lemma step_no_entry_for env i st sid :
  (∀ u, JSMap.get u (onlineUsers st) ≠ Some sid) →
  (∀ token, i = Connect sid token → falsy token = true) →
  ∀ u, JSMap.get u (onlineUsers (step env i st)) ≠ Some sid.
Proof.
  intros Hno Hi. destruct i as [s token|s c|s c|s c txt|s c ty|s].
  - destruct (decide (s = sid)) as [->|Hne].
    { unfold step. by rewrite (step_connect_falsy env sid token st (Hi _ eq_refl)). }
    destruct (sockets st !! s) as [u0|] eqn:Hb.
    { crack_handle. by rewrite Hb. }
    destruct (step_unbound_connect env s token st Hb) as (a & calls & _ & Hh).
    unfold step. rewrite Hh. destruct a as [u0|]; [|exact Hno].
    rewrite on_connection_run. simpl. intros u Hu.
    apply JSMapFacts.get_set_value in Hu as [Hu|Hu]; [congruence|].
    by apply (Hno u).
  - crack_handle. by destruct (sockets st !! s).
  - crack_handle. by destruct (sockets st !! s).
  - crack_handle. destruct (sockets st !! s) as [u0|]; reduce_run; [|done].
    by destruct (on_send_message_frame env s u0 c txt st) as (cs & ms & log & ->).
  - crack_handle. destruct (sockets st !! s) as [u0|]; reduce_run; [|done].
    by destruct (on_typing_frame env s u0 c ty st) as (log & ->).
  - destruct (sockets st !! s) as [u0|] eqn:Hb.
    2: { crack_handle. by rewrite Hb. }
    unfold step. rewrite (handle_disconnect _ _ _ _ Hb). simpl.
    intros u Hu. apply JSMapFacts.get_delete_value in Hu. by apply (Hno u).
Qed.

(** C8. A handshake without a credential (no token, or the empty string) is
    rejected by the middleware before [verifyToken] is called: the record of
    verifier calls, like the rest of the state, is untouched.  The connection
    handler does not run, nothing is emitted, and as long as the handle is
    only ever presented without a credential no presence entry holds it. *)
Theorem no_credential_no_admission env sid token st :
  falsy token = true →
  auth_middleware env token st = mkRun (Normal (Rejected "Unauthorized")) st [] ∧
  verifier_calls (final (auth_middleware env token st)) = verifier_calls st ∧
  step env (Connect sid token) st = st ∧
  outbox env (Connect sid token) st = [] ∧
  ∀ trace,
    (∀ u, JSMap.get u (onlineUsers st) ≠ Some sid) →
    (∀ e tok, (e, Connect sid tok) ∈ trace → falsy tok = true) →
    ∀ u, JSMap.get u
           (onlineUsers (run ((env, Connect sid token) :: trace) st)) ≠ Some sid.
Proof.
  intros Hf. split; [by apply auth_middleware_falsy|].
  split; [by rewrite auth_middleware_falsy|].
  unfold step, outbox. rewrite (step_connect_falsy env sid token st Hf).
  split; [done|]. split; [done|].
  intros trace. simpl. unfold step at 1.
  rewrite (step_connect_falsy env sid token st Hf). cbn [final].
  revert st. induction trace as [|[e i] trace IH]; intros st Hno Hall; [done|].
  simpl. apply IH.
  - apply step_no_entry_for; [done|]. intros tok ->. apply (Hall e). left.
  - intros e' tok Hin. apply (Hall e'). by right.
Qed.

(** ** Channel keys *)

(** C10. A chat channel key is never a personal channel key, whatever the two
    identifiers are; so a join-chat request, whatever chatId it carries and
    whoever sends it, leaves the membership of every personal channel as it
    was. *)
Theorem chat_channel_never_personal_channel (c u : string) :
  chat_room c ≠ user_room u ∧
  ("chat:" +:+ c) ≠ ("user:" +:+ u) ∧
  ∀ env sid st,
    room_members (step env (JoinChat sid c) st) (user_room u) =
    room_members st (user_room u).
Proof.
  split; [apply chat_room_not_user_room|].
  split; [apply chat_room_not_user_room|].
  intros env sid st. crack_handle.
  destruct (sockets st !! sid) as [u0|]; reduce_run; [|done].
  unfold on_join_chat. rewrite room_members_join.
  by rewrite decide_False by apply chat_room_not_user_room.
Qed.

(** ** Sending a message *)

(** C1, as the code has it. The sender names a chat that does not exist or
    does not list the sender, the ids taken as Mongoose casts them.  No
    message is created and no chat changes (the state is as before), and
    exactly one event is emitted, to the sender's socket and nobody else:
    socket-error when the lookup completes, and the catch block's error
    event when the lookup throws, be it that the database rejects or that an
    id of the filter is no ObjectId. *)
Theorem send_to_foreign_chat_is_refused env sid u chatId txt st :
  sockets st !! sid = Some u →
  (∀ c, c ∈ chats st →
     ¬ (castObjectId chatId = Some (chat_id c) ∧
        ∃ uid, castObjectId u = Some uid ∧ uid ∈ participants c)) →
  let log := outbox env (SendMessage sid chatId txt) st in
  let st' := step env (SendMessage sid chatId txt) st in
  st' = st ∧ messages st' = messages st ∧ chats st' = chats st ∧
  log = [ mkEmission (ToSocket sid)
            (match castObjectId chatId, castObjectId u with
             | Some _, Some _ =>
                 if db_throws env Chat_findOne_op
                 then error "Failed to send message"
                 else socket_error "Chat not found"
             | _, _ => error "Failed to send message"
             end)
            {[ sid ]} ] ∧
  (∀ other, other ≠ sid → received other log = []).
Proof.
  intros Hs Hnone log st'.
  assert (Hrun : handle env (SendMessage sid chatId txt) st =
    mkRun (Normal tt) st
      [ mkEmission (ToSocket sid)
          (match castObjectId chatId, castObjectId u with
           | Some _, Some _ =>
               if db_throws env Chat_findOne_op
               then error "Failed to send message"
               else socket_error "Chat not found"
           | _, _ => error "Failed to send message"
           end) {[ sid ]} ]).
  { rewrite handle_send, Hs, on_send_message_run.
    destruct (castObjectId chatId) as [oid|] eqn:Hc; [|done].
    destruct (castObjectId u) as [uid|] eqn:Hu; [|done].
    destruct (db_throws env Chat_findOne_op); [done|].
    rewrite find_none_of; [done|].
    intros c Hin. apply bool_decide_eq_false. intros [Hid Hp].
    apply (Hnone c Hin). split; [by rewrite Hid|]. by exists uid. }
  unfold st', log, step, outbox. rewrite Hrun. simpl.
  repeat split; try done.
  intros other Hother. rewrite received_miss; [done|]. simpl.
  by rewrite elem_of_singleton.
Qed.

(** C2, as the code has it. On a successful send the created message is
    appended to the Message collection, and the log of emissions is: one
    new-message to the chat channel keyed by the chatId string of the
    request, then one new-message to a personal channel for each entry of the
    chat's participants array, in order.  All of them carry the created
    message, with its _id, chat, sender and text, and with the name, email
    and avatar of the sender's user document in place of the sender
    reference.  The chat channel is addressed exactly once, and the personal
    channel of an identity as often as the array lists it: a connection of
    that identity is delivered the message once for each such entry, and
    once more if it has joined the chat channel.  When the participants are
    pairwise distinct, each participant's channel is addressed exactly once
    and a participant's connection that has joined the chat channel is
    delivered the message twice. *)
Theorem successful_send_fans_out_twice env sid u chatId txt st c uid oid :
  reachable st →
  sockets st !! sid = Some u →
  castObjectId u = Some uid → castObjectId chatId = Some oid →
  send_succeeds env uid oid st c →
  ∃ usr,
    find (λ usr, bool_decide (user_id usr = uid)) (users st) = Some usr ∧
    let log := outbox env (SendMessage sid chatId txt) st in
    let message := mkMessage (newObjectId env) oid uid txt in
    let populated :=
      mkPopulated (newObjectId env) oid uid
        (Some (mkSenderDetails uid (name usr) (email usr) (avatar usr))) txt in
    let to_user p :=
      mkEmission (ToRoom (user_room (toString p))) (new_message populated)
        (room_members st (user_room (toString p))) in
    messages (step env (SendMessage sid chatId txt) st)
      = (messages st ++ [message])%list ∧
    log =
      mkEmission (ToRoom (chat_room chatId)) (new_message populated)
        (room_members st (chat_room chatId))
      :: (to_user <$> participants c) ∧
    length (filter (λ e, target e = ToRoom (chat_room chatId)) log) = 1 ∧
    (∀ p, length (filter (λ e, target e = ToRoom (user_room (toString p))) log)
          = occurrences p (participants c)) ∧
    (∀ s p, sockets st !! s = Some (toString p) →
       received s log =
       ((if decide (s ∈ room_members st (chat_room chatId))
         then [new_message populated] else [])
        ++ replicate (occurrences p (participants c)) (new_message populated))%list) ∧
    (NoDup (participants c) →
       (∀ p, p ∈ participants c →
          length (filter (λ e, target e = ToRoom (user_room (toString p))) log) = 1) ∧
       (∀ s p, sockets st !! s = Some (toString p) → p ∈ participants c →
          s ∈ room_members st (chat_room chatId) →
          received s log = [new_message populated; new_message populated])).
Proof.
  intros Hreach Hs Hu Hc Hok.
  assert (Hinv := reachable_personal_rooms st Hreach).
  destruct (reachable_sockets_are_users st Hreach sid u Hs) as (usr0 & Hin0 & Hid0).
  assert (Huid : uid = user_id usr0) by (by apply (cast_spelling u)).
  destruct (find_exists (λ usr, bool_decide (user_id usr = uid)) (users st) usr0 Hin0)
    as (usr & Hfind & _ & Husr); [by apply bool_decide_eq_true|].
  apply bool_decide_eq_true in Husr.
  exists usr. split; [done|]. intros log message populated to_user.
  assert (Hrun : handle env (SendMessage sid chatId txt) st =
    mkRun (Normal tt)
      (with_chats (updateOne (touched_chat env c))
         (with_messages (λ ms, (ms ++ [message])%list) st))
      (mkEmission (ToRoom (chat_room chatId)) (new_message populated)
         (room_members st (chat_room chatId))
       :: (to_user <$> participants c))).
  { rewrite handle_send, Hs.
    rewrite (on_send_message_success env sid u chatId txt st c uid oid Hu Hc Hok).
    unfold populate_sender, created_message. cbn [sender message_id chat text].
    rewrite Hfind. cbn [fmap option_fmap option_map]. by rewrite Husr. }
  assert (Hcount : ∀ p,
    length (filter (λ e, target e = ToRoom (user_room (toString p)))
              (to_user <$> participants c)) = occurrences p (participants c)).
  { intros p. rewrite (filter_fmap_by _ _ (λ q, q = p)).
    - by rewrite length_fmap.
    - intros q. cbn [target to_user]. split; [|by intros ->].
      intros Heq. by apply toString_inj, user_room_inj, ToRoom_inj. }
  assert (Hpersonal : ∀ s p, sockets st !! s = Some (toString p) →
    received s (to_user <$> participants c)
    = replicate (occurrences p (participants c)) (new_message populated)).
  { intros s p Hsp. unfold received.
    rewrite (filter_fmap_by _ _ (λ q, q = p)).
    - rewrite <- list_fmap_compose, (fmap_const_replicate _ (new_message populated));
        done.
    - intros q. cbn [recipients to_user]. rewrite (Hinv (toString q) s), Hsp.
      split; [|by intros ->]. intros [= Heq]. symmetry. by apply toString_inj. }
  unfold log, outbox, step. rewrite Hrun. cbn [final emitted].
  split; [done|]. split; [done|]. split; [|split; [|split]].
  - rewrite filter_cons_True by done. simpl. f_equal.
    rewrite filter_fmap_none; [done|]. intros p _ Heq. cbn [target to_user] in Heq.
    apply ToRoom_inj in Heq. symmetry in Heq.
    by apply chat_room_not_user_room in Heq.
  - intros p. rewrite filter_cons_False; [apply Hcount|].
    cbn [target]. intros Heq. apply ToRoom_inj in Heq.
    by apply chat_room_not_user_room in Heq.
  - intros s p Hsp. rewrite received_cons. cbn [recipients event].
    rewrite (Hpersonal s p Hsp).
    by destruct (decide (s ∈ room_members st (chat_room chatId))).
  - intros Hnd. split.
    + intros p Hp. rewrite filter_cons_False.
      * rewrite Hcount. by apply occurrences_NoDup.
      * cbn [target]. intros Heq. apply ToRoom_inj in Heq.
        by apply chat_room_not_user_room in Heq.
    + intros s p Hsp Hp Hjoined. rewrite received_hit by done.
      rewrite (Hpersonal s p Hsp), occurrences_NoDup by done. done.
Qed.

(** C9. A successful send appends the created message to the Message
    collection and rewrites exactly one chat document, the one it found:
    its lastMessage becomes the new message's id and its lastMessageAt the
    send time, while its _id, participants and createdAt, every other chat
    document, and every other part of the state stay as they were.  The
    _id of a document is unique in its collection. *)
Theorem successful_send_updates_chat_summary_only
    env sid u chatId txt st c uid oid :
  sockets st !! sid = Some u →
  castObjectId u = Some uid → castObjectId chatId = Some oid →
  send_succeeds env uid oid st c →
  NoDup (chat_id <$> chats st) →
  let st' := step env (SendMessage sid chatId txt) st in
  let message := created_message env uid oid txt in
  messages st' = (messages st ++ [message])%list ∧
  (∃ c' before after,
     chats st = (before ++ c :: after)%list ∧
     chats st' = (before ++ c' :: after)%list ∧
     lastMessage c' = Some (message_id message) ∧
     lastMessageAt c' = Some (now env) ∧
     chat_id c' = chat_id c ∧
     participants c' = participants c ∧
     createdAt c' = createdAt c) ∧
  onlineUsers st' = onlineUsers st ∧ sockets st' = sockets st ∧
  rooms st' = rooms st ∧ users st' = users st.
Proof.
  intros Hs Hu Hc Hok Hnd st' message.
  unfold st', step. rewrite handle_send, Hs.
  rewrite (on_send_message_success env sid u chatId txt st c uid oid Hu Hc Hok).
  cbn [final]. split; [done|]. split; [|done].
  destruct Hok as (Hfind & _). apply find_some_of in Hfind as [Hin _].
  destruct (updateOne_unique (touched_chat env c) c (chats st) Hnd Hin eq_refl)
    as (before & after & Hcs & Hup).
  exists (touched_chat env c), before, after. simpl. by rewrite <- Hcs.
Qed.

(** ** Typing *)

(** C7, as the code has it. A typing signal is forwarded to the chat channel
    minus the sending socket.  When the chat lookup completes and returns a
    chat with a participant other than the sender, the same payload goes to
    the personal channel of the first such participant; when the lookup
    throws (the database rejects, or the chatId is no ObjectId), finds no
    chat, or finds no other participant, nothing more is emitted.  Either way
    the state is unchanged and the sending socket is delivered nothing; any
    other connection of the sender's identity is delivered the signal when
    it has joined the chat channel. *)
Theorem typing_is_relayed_past_the_sender env sid u chatId isTyping st :
  reachable st →
  sockets st !! sid = Some u →
  let log := outbox env (TypingSignal sid chatId isTyping) st in
  let payload := typing u chatId isTyping in
  let to_chat :=
    mkEmission (ToRoomExcept (chat_room chatId) sid) payload
      (room_members st (chat_room chatId) ∖ {[ sid ]}) in
  let found :=
    match castObjectId chatId with
    | Some oid =>
        if db_throws env Chat_findById_op then None
        else find (λ c, bool_decide (chat_id c = oid)) (chats st)
    | None => None
    end in
  step env (TypingSignal sid chatId isTyping) st = st ∧
  (∀ c other,
     found = Some c →
     find (λ p, bool_decide (toString p ≠ u)) (participants c) = Some other →
     toString other ≠ u ∧
     log = [ to_chat;
             mkEmission (ToRoom (user_room (toString other))) payload
               (room_members st (user_room (toString other))) ]) ∧
  ((found = None ∨
    ∃ c, found = Some c ∧
         find (λ p, bool_decide (toString p ≠ u)) (participants c) = None) →
   log = [ to_chat ]) ∧
  received sid log = [] ∧
  (∀ s, s ≠ sid → sockets st !! s = Some u →
     received s log =
     if decide (s ∈ room_members st (chat_room chatId)) then [payload] else []).
Proof.
  intros Hreach Hs log payload to_chat found.
  assert (Hinv := reachable_personal_rooms st Hreach).
  assert (Hrun : handle env (TypingSignal sid chatId isTyping) st =
    mkRun (Normal tt) st
      (to_chat ::
       match found with
       | Some c =>
           match find (λ p, bool_decide (toString p ≠ u)) (participants c) with
           | Some other =>
               [ mkEmission (ToRoom (user_room (toString other))) payload
                   (room_members st (user_room (toString other))) ]
           | None => []
           end
       | None => []
       end)).
  { rewrite handle_typing, Hs, on_typing_run. unfold found.
    destruct (castObjectId chatId) as [oid|]; [|done].
    by destruct (db_throws env Chat_findById_op). }
  assert (Hmine : ∀ s, sockets st !! s = Some u →
    received s
      match found with
      | Some c =>
          match find (λ p, bool_decide (toString p ≠ u)) (participants c) with
          | Some other =>
              [ mkEmission (ToRoom (user_room (toString other))) payload
                  (room_members st (user_room (toString other))) ]
          | None => []
          end
      | None => []
      end = []).
  { intros s Hsu. destruct found as [c|]; [|done].
    destruct (find _ (participants c)) as [other|] eqn:Hother; [|done].
    apply find_some_of in Hother as [_ Hne]. apply bool_decide_eq_true in Hne.
    rewrite received_miss; [done|]. cbn [recipients].
    rewrite (Hinv (toString other) s), Hsu. congruence. }
  unfold log, step, outbox. rewrite Hrun. cbn [final emitted].
  split; [done|]. split; [|split; [|split]].
  - intros c other -> Hother. rewrite Hother. split; [|done].
    apply find_some_of in Hother as [_ Hne]. by apply bool_decide_eq_true in Hne.
  - intros [->|(c & -> & ->)]; done.
  - rewrite received_miss by (simpl; apply except_self). by apply Hmine.
  - intros s Hne Hsu. rewrite received_cons. cbn [recipients event to_chat].
    rewrite (Hmine s Hsu).
    destruct (decide (s ∈ room_members st (chat_room chatId))) as [Hin|Hout].
    + rewrite decide_True; [done|]. apply elem_of_difference.
      split; [done|]. by rewrite elem_of_singleton.
    + rewrite decide_False; [done|]. by intros [? _]%elem_of_difference.
Qed.

(** * Further properties of the gateway *)

(** ** Sending: the failure paths, and where a new-message can come from *)

(** X1. The chat is found but a later database call rejects.  The sender's
    socket is sent the one generic error event and nobody is sent anything
    else, no new-message in particular.  What has been written stays written:
    nothing if Message.create rejected; the message, with the chat summary
    left stale, if chat.save rejected; the message and the updated chat, never
    delivered to anyone, if populate rejected. *)
Theorem failed_send_tells_only_the_sender env sid u chatId txt st c uid oid :
  sockets st !! sid = Some u →
  castObjectId u = Some uid → castObjectId chatId = Some oid →
  db_throws env Chat_findOne_op = false →
  find (λ c, bool_decide (chat_id c = oid ∧ uid ∈ participants c))
       (chats st) = Some c →
  db_throws env Message_create_op || db_throws env Chat_save_op
    || db_throws env Message_populate_op = true →
  let st' := step env (SendMessage sid chatId txt) st in
  let log := outbox env (SendMessage sid chatId txt) st in
  let message := created_message env uid oid txt in
  log = [send_failure sid] ∧
  received sid log = [error "Failed to send message"] ∧
  (∀ other, other ≠ sid → received other log = []) ∧
  (if db_throws env Message_create_op then st' = st
   else
     messages st' = (messages st ++ [message])%list ∧
     if db_throws env Chat_save_op then chats st' = chats st
     else chats st' = updateOne (touched_chat env c) (chats st)).
Proof.
  intros Hs Hu Hc H0 Hfind Hfail st' log message.
  unfold st', log, step, outbox.
  rewrite handle_send, Hs, on_send_message_run, Hc, Hu, H0, Hfind. cbv zeta.
  assert (Hone : ∀ x, received x [send_failure sid] =
                      if decide (x = sid) then [error "Failed to send message"]
                      else []).
  { intros x. destruct (decide (x = sid)) as [->|Hne].
    - rewrite received_hit; [done|]. simpl. by apply elem_of_singleton.
    - rewrite received_miss; [done|]. simpl. by rewrite elem_of_singleton. }
  destruct (db_throws env Message_create_op);
    [|destruct (db_throws env Chat_save_op);
      [|destruct (db_throws env Message_populate_op); [|done]]];
    cbn [final emitted]; rewrite !Hone, decide_True by done;
    (split; [done|]); (split; [done|]);
    (split; [by intros other Hne; rewrite Hone, decide_False|]); done.
Qed.

Lemma elem_of_connection_log env sid token st e :
  e ∈ outbox env (Connect sid token) st →
  (∃ ids, event e = online_users ids) ∨ (∃ u, event e = user_online u).
Proof.
  unfold outbox. destruct (sockets st !! sid) as [u0|] eqn:Hb.
  { rewrite (handle_connect_bound env sid token u0 st Hb). by intros ?%elem_of_nil. }
  destruct (step_unbound_connect env sid token st Hb) as (a & calls & _ & ->).
  destruct a as [u0|]; [|by intros ?%elem_of_nil].
  rewrite on_connection_run. cbn [emitted].
  intros [->|[->|?%elem_of_nil]%elem_of_cons]%elem_of_cons; [| |done].
  - left. by eexists.
  - right. by eexists.
Qed.

Lemma new_message_origin env i st e m :
  e ∈ outbox env i st →
  event e = new_message m →
  ∃ sid chatId txt u c uid,
    i = SendMessage sid chatId txt ∧
    sockets st !! sid = Some u ∧
    castObjectId u = Some uid ∧
    c ∈ chats st ∧ castObjectId chatId = Some (chat_id c) ∧
    uid ∈ participants c ∧
    m = populate_sender (users st) (created_message env uid (chat_id c) txt) ∧
    pm_sender_id m = uid ∧ pm_chat m = chat_id c ∧ pm_text m = txt ∧
    (target e = ToRoom (chat_room chatId) ∨
     ∃ p, p ∈ participants c ∧ target e = ToRoom (user_room (toString p))).
Proof.
  intros He Hev. destruct i as [sid token|sid c|sid c|sid c txt|sid c ty|sid].
  - apply elem_of_connection_log in He as [[l Hl]|[u Hu]]; congruence.
  - unfold outbox in He. rewrite handle_join in He.
    destruct (sockets st !! sid); by apply elem_of_nil in He.
  - unfold outbox in He. rewrite handle_leave in He.
    destruct (sockets st !! sid); by apply elem_of_nil in He.
  - unfold outbox in He. rewrite handle_send in He.
    destruct (sockets st !! sid) as [u|] eqn:Hs; [|by apply elem_of_nil in He].
    rewrite on_send_message_run in He.
    assert (Hfail : e ∈ [send_failure sid] → False).
    { intros ->%list_elem_of_singleton. discriminate Hev. }
    destruct (castObjectId c) as [oid|] eqn:Hc; [|done].
    destruct (castObjectId u) as [uid|] eqn:Hu; [|done].
    destruct (db_throws env Chat_findOne_op); [done|].
    destruct (find _ (chats st)) as [c0|] eqn:Hfind.
    2: { apply list_elem_of_singleton in He as ->. discriminate Hev. }
    cbv zeta in He.
    destruct (db_throws env Message_create_op); [done|].
    destruct (db_throws env Chat_save_op); [done|].
    destruct (db_throws env Message_populate_op); [done|].
    cbn [emitted] in He.
    apply find_some_of in Hfind as [Hin Hc0].
    apply bool_decide_eq_true in Hc0 as [Hid Hp]. subst oid.
    assert (Hm : m = populate_sender (users st)
                       (created_message env uid (chat_id c0) txt)).
    { apply elem_of_cons in He as [->|He]; [by injection Hev|].
      apply list_elem_of_fmap in He as (p & -> & _). by injection Hev. }
    exists sid, c, txt, u, c0, uid. repeat split; try done; try by rewrite Hm.
    apply elem_of_cons in He as [->|He]; [by left|].
    apply list_elem_of_fmap in He as (p & -> & Hp'). right. by exists p.
  - unfold outbox in He. rewrite handle_typing in He.
    destruct (sockets st !! sid) as [u|]; [|by apply elem_of_nil in He].
    rewrite on_typing_run in He. cbn [emitted] in He.
    apply elem_of_cons in He as [->|He]; [discriminate Hev|].
    destruct (castObjectId c) as [oid|]; [|by apply elem_of_nil in He].
    destruct (db_throws env Chat_findById_op); [by apply elem_of_nil in He|].
    destruct (find _ (chats st)) as [c0|]; [|by apply elem_of_nil in He].
    destruct (find _ (participants c0)); [|by apply elem_of_nil in He].
    apply list_elem_of_singleton in He as ->. discriminate Hev.
  - unfold outbox in He. destruct (sockets st !! sid) as [u|] eqn:Hs.
    + rewrite (handle_disconnect _ _ _ _ Hs) in He.
      apply list_elem_of_singleton in He as ->. discriminate Hev.
    + rewrite (handle_disconnect_unbound _ _ _ Hs) in He. by apply elem_of_nil in He.
Qed.

(** X9. A new-message event is emitted by nothing but a send whose sender's
    socket is authenticated as a participant of the chat that the chatId of
    the request casts to.  The message it carries names that authenticated
    identity as sender, that chat by its stored _id (however the request
    spelled it) and the submitted text, and it is addressed to the channel
    keyed by the request's chatId or to the personal channel of one of the
    chat's participants. *)
Theorem new_message_comes_from_a_participant env i st e m :
  e ∈ outbox env i st →
  event e = new_message m →
  ∃ sid chatId txt u c uid,
    i = SendMessage sid chatId txt ∧
    sockets st !! sid = Some u ∧
    castObjectId u = Some uid ∧
    c ∈ chats st ∧ castObjectId chatId = Some (chat_id c) ∧
    uid ∈ participants c ∧
    m = populate_sender (users st) (created_message env uid (chat_id c) txt) ∧
    pm_sender_id m = uid ∧ pm_chat m = chat_id c ∧ pm_text m = txt ∧
    (target e = ToRoom (chat_room chatId) ∨
     ∃ p, p ∈ participants c ∧ target e = ToRoom (user_room (toString p))).
Proof.
  intros He Hev.
  destruct (new_message_origin env i st e m He Hev)
    as (sid & chatId & txt & u & c & uid & Hi & Hs & Hu & Hc & Hid & Hp & Hm & Hrest).
  exists sid, chatId, txt, u, c, uid.
  split; [exact Hi|]. split; [exact Hs|]. split; [exact Hu|]. split; [exact Hc|].
  split; [exact Hid|]. split; [exact Hp|]. split; [exact Hm|]. exact Hrest.
Qed.

(** ** The collections over a whole run *)

Lemma updateOne_ids doc cs : chat_id <$> updateOne doc cs = chat_id <$> cs.
Proof.
  induction cs as [|c cs IH]; [done|]. cbn [updateOne].
  destruct (decide (chat_id c = chat_id doc)) as [Heq|Hne]; rewrite !fmap_cons;
    [by rewrite Heq | by rewrite IH].
Qed.

Lemma updateOne_identity doc c cs :
  NoDup (chat_id <$> cs) → c ∈ cs → chat_identity doc = chat_identity c →
  chat_identity <$> updateOne doc cs = chat_identity <$> cs.
Proof.
  intros Hnd Hin Hid.
  assert (Hcid : chat_id doc = chat_id c) by (by injection Hid).
  destruct (updateOne_unique doc c cs Hnd Hin Hcid) as (before & after & -> & ->).
  rewrite !fmap_app, !fmap_cons. by rewrite Hid.
Qed.

Lemma step_collections env i st :
  NoDup (chat_id <$> chats st) →
  users (step env i st) = users st ∧
  (messages (step env i st) = messages st ∨
   ∃ sid chatId txt u uid oid,
     i = SendMessage sid chatId txt ∧ sockets st !! sid = Some u ∧
     castObjectId u = Some uid ∧ castObjectId chatId = Some oid ∧
     messages (step env i st)
       = (messages st ++ [created_message env uid oid txt])%list) ∧
  chat_identity <$> chats (step env i st) = chat_identity <$> chats st ∧
  chat_id <$> chats (step env i st) = chat_id <$> chats st.
Proof.
  intros Hnd. unfold step.
  destruct i as [sid token|sid c|sid c|sid c txt|sid c ty|sid].
  - destruct (sockets st !! sid) as [u0|] eqn:Hb.
    { rewrite (handle_connect_bound env sid token u0 st Hb). simpl. tauto. }
    destruct (step_unbound_connect env sid token st Hb) as (a & calls & _ & ->).
    destruct a as [u0|]; [rewrite on_connection_run|]; simpl; tauto.
  - rewrite handle_join. destruct (sockets st !! sid); simpl; tauto.
  - rewrite handle_leave. destruct (sockets st !! sid); simpl; tauto.
  - rewrite handle_send. destruct (sockets st !! sid) as [u|] eqn:Hs; [|simpl; tauto].
    rewrite on_send_message_run.
    destruct (castObjectId c) as [oid|] eqn:Hc; [|simpl; tauto].
    destruct (castObjectId u) as [uid|] eqn:Hu; [|simpl; tauto].
    destruct (db_throws env Chat_findOne_op); [simpl; tauto|].
    destruct (find _ (chats st)) as [c0|] eqn:Hfind; [|simpl; tauto].
    cbv zeta. apply find_some_of in Hfind as [Hin _].
    assert (Hsent : ∃ sid0 chatId txt0 u0 uid0 oid0,
      SendMessage sid c txt = SendMessage sid0 chatId txt0 ∧
      sockets st !! sid0 = Some u0 ∧
      castObjectId u0 = Some uid0 ∧ castObjectId chatId = Some oid0 ∧
      (messages st ++ [created_message env uid oid txt])%list
        = (messages st ++ [created_message env uid0 oid0 txt0])%list)
      by (by exists sid, c, txt, u, uid, oid).
    destruct (db_throws env Message_create_op); [simpl; tauto|].
    destruct (db_throws env Chat_save_op).
    { cbn [final]. split; [done|]. split; [right; exact Hsent|]. done. }
    assert (Hid : chat_identity <$> updateOne (touched_chat env c0) (chats st)
                  = chat_identity <$> chats st)
      by (by apply (updateOne_identity _ c0)).
    destruct (db_throws env Message_populate_op); cbn [final];
      (split; [done|]); (split; [right; exact Hsent|]);
      (split; [exact Hid | apply updateOne_ids]).
  - rewrite handle_typing. destruct (sockets st !! sid) as [u|]; [|simpl; tauto].
    destruct (on_typing_frame env sid u c ty st) as (log & ->). simpl. tauto.
  - destruct (sockets st !! sid) as [u|] eqn:Hs.
    + rewrite (handle_disconnect _ _ _ _ Hs). simpl. tauto.
    + rewrite (handle_disconnect_unbound _ _ _ Hs). simpl. tauto.
Qed.

(** X10. Over any run of the gateway, from a database whose chat _ids are
    unique: the User collection is never written; the Message collection only
    grows at its end, so no message is ever altered or removed; and chats are
    neither created nor removed, each keeping its _id, its participants and
    its creation time. *)
Theorem collections_over_a_run trace st :
  NoDup (chat_id <$> chats st) →
  users (run trace st) = users st ∧
  messages st `prefix_of` messages (run trace st) ∧
  chat_identity <$> chats (run trace st) = chat_identity <$> chats st.
Proof.
  revert st. induction trace as [|[env i] trace IH]; intros st Hnd; [done|].
  simpl. destruct (step_collections env i st Hnd) as (Hu & Hm & Hc & Hids).
  destruct (IH (step env i st)) as (IHu & IHm & IHc); [by rewrite Hids|].
  split; [congruence|]. split; [|congruence].
  etrans; [|exact IHm].
  destruct Hm as [->|(sid & chatId & txt & u & uid & oid & _ & _ & _ & _ & ->)];
    [done|].
  by apply prefix_app_r.
Qed.

(** ** Invariants of the presence map and of the rooms *)

Lemma rooms_hold_connected_start st : fresh_process st → rooms_hold_connected st.
Proof.
  intros (_ & _ & Hr) room s. unfold room_members. rewrite Hr, lookup_empty.
  simpl. by intros ?%not_elem_of_empty.
Qed.

Lemma rooms_hold_connected_step env i st :
  rooms_hold_connected st → rooms_hold_connected (step env i st).
Proof.
  intros Hinv. unfold step.
  destruct i as [sid token|sid c|sid c|sid c txt|sid c ty|sid].
  - destruct (sockets st !! sid) as [u0|] eqn:Hb.
    { by rewrite (handle_connect_bound env sid token u0 st Hb). }
    destruct (step_unbound_connect env sid token st Hb) as (a & calls & _ & ->).
    destruct a as [u0|]; [|exact Hinv].
    rewrite on_connection_run. cbn [final]. intros room s.
    rewrite room_members_join.
    change (room_members (with_onlineUsers _ ?x)) with (room_members x).
    change (room_members (with_sockets _ ?x)) with (room_members x).
    change (room_members (with_verifier_calls _ ?x)) with (room_members x).
    simpl. intros Hs. destruct (decide (s = sid)) as [->|Hne].
    + rewrite lookup_insert_eq. by eexists.
    + rewrite lookup_insert_ne by done.
      destruct (decide (user_room u0 = room)) as [<-|_]; [|by apply (Hinv room)].
      apply elem_of_union in Hs as [Hs|Hs]; [|by apply (Hinv (user_room u0))].
      by apply elem_of_singleton in Hs.
  - rewrite handle_join. destruct (sockets st !! sid) as [u|] eqn:Hs; [|done].
    cbn [final]. intros room s. rewrite room_members_join. simpl.
    destruct (decide (chat_room c = room)) as [<-|_]; [|by apply (Hinv room)].
    intros [->%elem_of_singleton|Hin]%elem_of_union; [by rewrite Hs|].
    by apply (Hinv (chat_room c)).
  - rewrite handle_leave. destruct (sockets st !! sid) as [u|] eqn:Hs; [|done].
    cbn [final]. intros room s. rewrite room_members_leave. simpl.
    destruct (decide (chat_room c = room)) as [<-|_]; [|by apply (Hinv room)].
    intros [Hin _]%elem_of_difference. by apply (Hinv (chat_room c)).
  - rewrite handle_send. destruct (sockets st !! sid) as [u|]; [|done].
    by destruct (on_send_message_frame env sid u c txt st) as (cs & ms & log & ->).
  - rewrite handle_typing. destruct (sockets st !! sid) as [u|]; [|done].
    by destruct (on_typing_frame env sid u c ty st) as (log & ->).
  - destruct (sockets st !! sid) as [u|] eqn:Hs.
    2: { by rewrite (handle_disconnect_unbound _ _ _ Hs). }
    rewrite (handle_disconnect _ _ _ _ Hs). cbn [final]. intros room s.
    change (room_members (with_onlineUsers _ ?x)) with (room_members x).
    rewrite room_members_cleanup. simpl.
    intros [Hin Hne]%elem_of_difference.
    rewrite lookup_delete_ne; [by apply (Hinv room)|].
    intros ->. apply Hne. by apply elem_of_singleton.
Qed.

Lemma reachable_rooms_hold_connected st : reachable st → rooms_hold_connected st.
Proof.
  induction 1 as [st Hstart|env i st _ IH].
  - by apply rooms_hold_connected_start.
  - by apply rooms_hold_connected_step.
Qed.

(** X5. In every state the server can reach, whatever input it handles next,
    each packet it emits is written only to sockets that are connected once
    the handler is done: rooms hold no socket that has disconnected, and a
    socket is addressed directly only while it is connected. *)
Theorem events_reach_connected_sockets_only env i st e s :
  reachable st →
  e ∈ outbox env i st →
  s ∈ recipients e →
  is_Some (sockets (step env i st) !! s).
Proof.
  intros Hreach He Hs.
  assert (Hrooms := reachable_rooms_hold_connected st Hreach).
  unfold outbox in He. unfold step.
  destruct i as [sid token|sid c|sid c|sid c txt|sid c ty|sid].
  - destruct (sockets st !! sid) as [u0|] eqn:Hb.
    { rewrite (handle_connect_bound env sid token u0 st Hb) in He.
      by apply elem_of_nil in He. }
    destruct (step_unbound_connect env sid token st Hb) as (a & calls & _ & Hh).
    rewrite Hh in He |- *. destruct a as [u0|]; [|by apply elem_of_nil in He].
    rewrite on_connection_run in He |- *. cbn [emitted final] in *. simpl.
    apply elem_of_cons in He as [->|He].
    + simpl in Hs. apply elem_of_singleton in Hs as ->.
      rewrite lookup_insert_eq. by eexists.
    + apply list_elem_of_singleton in He as ->. simpl in Hs.
      apply elem_of_difference in Hs as [Hs _]. by apply elem_of_dom in Hs.
  - rewrite handle_join in He. destruct (sockets st !! sid); by apply elem_of_nil in He.
  - rewrite handle_leave in He. destruct (sockets st !! sid); by apply elem_of_nil in He.
  - rewrite handle_send in He |- *.
    destruct (sockets st !! sid) as [u|] eqn:Hb; [|by apply elem_of_nil in He].
    assert (Hsame : sockets (final (on_send_message env sid u c txt st)) = sockets st)
      by (by destruct (on_send_message_frame env sid u c txt st)
               as (cs & ms & log & ->)).
    rewrite Hsame. rewrite on_send_message_run in He.
    assert (Hself : ∀ ev, e = mkEmission (ToSocket sid) ev {[ sid ]} →
                          is_Some (sockets st !! s)).
    { intros ev ->. simpl in Hs. apply elem_of_singleton in Hs as ->. by eexists. }
    assert (Hfail : e ∈ [send_failure sid] → is_Some (sockets st !! s)).
    { intros ->%list_elem_of_singleton. by apply (Hself _ eq_refl). }
    destruct (castObjectId c) as [oid|]; [|by apply Hfail].
    destruct (castObjectId u) as [uid|]; [|by apply Hfail].
    destruct (db_throws env Chat_findOne_op); [by apply Hfail|].
    destruct (find _ (chats st)) as [c0|].
    2: { apply list_elem_of_singleton in He. by apply (Hself _ He). }
    cbv zeta in He.
    destruct (db_throws env Message_create_op); [by apply Hfail|].
    destruct (db_throws env Chat_save_op); [by apply Hfail|].
    destruct (db_throws env Message_populate_op); [by apply Hfail|].
    cbn [emitted] in He. apply elem_of_cons in He as [->|He].
    + by apply (Hrooms (chat_room c)).
    + apply list_elem_of_fmap in He as (p & -> & _).
      by apply (Hrooms (user_room (toString p))).
  - rewrite handle_typing in He |- *.
    destruct (sockets st !! sid) as [u|] eqn:Hb; [|by apply elem_of_nil in He].
    rewrite on_typing_run in He |- *. cbn [emitted final] in *.
    apply elem_of_cons in He as [->|He].
    { simpl in Hs. apply elem_of_difference in Hs as [Hs _].
      by apply (Hrooms (chat_room c)). }
    destruct (castObjectId c) as [oid|]; [|by apply elem_of_nil in He].
    destruct (db_throws env Chat_findById_op); [by apply elem_of_nil in He|].
    destruct (find _ (chats st)) as [c0|]; [|by apply elem_of_nil in He].
    destruct (find _ (participants c0)) as [p|]; [|by apply elem_of_nil in He].
    apply list_elem_of_singleton in He as ->.
    by apply (Hrooms (user_room (toString p))).
  - destruct (sockets st !! sid) as [u|] eqn:Hb.
    2: { rewrite (handle_disconnect_unbound _ _ _ Hb) in He. by apply elem_of_nil in He. }
    rewrite (handle_disconnect _ _ _ _ Hb) in He |- *. cbn [emitted final] in *.
    apply list_elem_of_singleton in He as ->. simpl in Hs |- *.
    apply elem_of_difference in Hs as [Hin Hne].
    rewrite lookup_delete_ne; [by apply elem_of_dom|].
    intros ->. apply Hne. by apply elem_of_singleton.
Qed.

(** The keys of the map after [set] and [delete]. *)
Lemma keys_after_set k v m :
  JSMap.keys (JSMap.set k v m) =
  if decide (k ∈ JSMap.keys m) then JSMap.keys m
  else (JSMap.keys m ++ [k])%list.
Proof.
  unfold JSMap.keys. induction m as [|[k' v'] m IH]; [done|]. simpl.
  destruct (decide (k = k')) as [->|Hne]; simpl.
  - rewrite decide_True; [done|]. left.
  - rewrite IH. destruct (decide (k ∈ map fst m)) as [Hin|Hout].
    + rewrite decide_True; [done|]. by right.
    + rewrite decide_False; [done|]. by intros [?|?]%elem_of_cons.
Qed.

Lemma keys_after_delete k m :
  JSMap.keys (JSMap.delete k m) = filter (λ x, k ≠ x) (JSMap.keys m).
Proof.
  unfold JSMap.keys. induction m as [|[k' v'] m IH]; [done|]. simpl.
  destruct (decide (k = k')) as [->|Hne].
  - rewrite filter_cons_False by (intros H; by apply H). exact IH.
  - rewrite filter_cons_True by done. simpl. by rewrite IH.
Qed.

Lemma online_keys_distinct_step env i st :
  NoDup (JSMap.keys (onlineUsers st)) →
  NoDup (JSMap.keys (onlineUsers (step env i st))).
Proof.
  intros Hnd.
  destruct i as [sid token|sid c|sid c|sid c txt|sid c ty|sid].
  - unfold step. destruct (sockets st !! sid) as [u0|] eqn:Hb.
    { by rewrite (handle_connect_bound env sid token u0 st Hb). }
    destruct (step_unbound_connect env sid token st Hb) as (a & calls & _ & ->).
    destruct a as [u0|]; [|exact Hnd].
    rewrite on_connection_run. simpl. rewrite keys_after_set.
    destruct (decide (u0 ∈ JSMap.keys (onlineUsers st))); [done|].
    apply NoDup_app. split; [done|]. split; [|apply NoDup_singleton].
    intros x Hx ->%list_elem_of_singleton. done.
  - destruct (step_keeps_presence env (JoinChat sid c) st) as [-> _]; done.
  - destruct (step_keeps_presence env (LeaveChat sid c) st) as [-> _]; done.
  - destruct (step_keeps_presence env (SendMessage sid c txt) st) as [-> _]; done.
  - destruct (step_keeps_presence env (TypingSignal sid c ty) st) as [-> _]; done.
  - unfold step. destruct (sockets st !! sid) as [u|] eqn:Hb.
    2: { by rewrite (handle_disconnect_unbound _ _ _ Hb). }
    rewrite (handle_disconnect _ _ _ _ Hb). simpl. rewrite keys_after_delete.
    by apply NoDup_filter.
Qed.

(** X6. In every reachable state the presence map lists no identity twice,
    however many connections an identity has opened and closed; so the
    online-users list sent to a newly accepted connection, which is the list
    of these keys, has no duplicates. *)
Theorem online_users_lists_each_identity_once env sid token st e ids :
  reachable st →
  e ∈ outbox env (Connect sid token) st →
  event e = online_users ids →
  ids = JSMap.keys (onlineUsers st) ∧ NoDup ids.
Proof.
  intros Hreach He Hev.
  assert (Hnd : NoDup (JSMap.keys (onlineUsers st))).
  { clear He Hev. induction Hreach as [st (Ho & _)|env' i st _ IH].
    - rewrite Ho. apply NoDup_nil_2.
    - by apply online_keys_distinct_step. }
  assert (Hids : ids = JSMap.keys (onlineUsers st)); [|by rewrite Hids].
  unfold outbox in He. destruct (sockets st !! sid) as [u0|] eqn:Hb.
  { rewrite (handle_connect_bound env sid token u0 st Hb) in He.
    by apply elem_of_nil in He. }
  destruct (step_unbound_connect env sid token st Hb) as (a & calls & _ & Hh).
  rewrite Hh in He. destruct a as [u0|]; [|by apply elem_of_nil in He].
  rewrite on_connection_run in He. cbn [emitted] in He.
  apply elem_of_cons in He as [->|He]; [by injection Hev|].
  apply list_elem_of_singleton in He as ->. discriminate Hev.
Qed.

(** X7. In every reachable state, an identity that the presence map lists as
    online has a connected socket: the handle stored under it is a socket
    that is connected and authenticated as that identity.  (The converse
    fails once an identity has two connections.) *)
Theorem listed_identity_has_a_live_socket st u :
  reachable st →
  u ∈ JSMap.keys (onlineUsers st) →
  ∃ s, JSMap.get u (onlineUsers st) = Some s ∧ sockets st !! s = Some u.
Proof.
  intros Hreach [s Hs]%JSMapFacts.elem_of_keys.
  exists s. split; [done|]. by apply (reachable_presence_entries st Hreach).
Qed.

(** X8. In every reachable state, the members of the personal channel of an
    identity are exactly the connected sockets authenticated as that
    identity: a connection joins its own personal channel when it is
    accepted, no handler takes it out again before it disconnects, and no
    request puts it into somebody else's. *)
Theorem personal_channel_is_the_users_sockets st u s :
  reachable st →
  s ∈ room_members st (user_room u) ↔ sockets st !! s = Some u.
Proof.
  intros Hreach. revert u s.
  induction Hreach as [st Hstart|env i st _ IH].
  - by apply personal_rooms_start.
  - by apply personal_rooms_step.
Qed.

(** X12. A step keeps "listed online iff some socket is connected under that
    identity" whenever it is not the disconnect of a socket whose identity
    has another connection: accepting a connection, and every client event,
    preserve it, and so does a disconnect of an identity's only socket. *)
Theorem presence_kept_when_identity_has_one_socket env i st :
  presence_matches_connections st →
  (∀ sid u, i = Disconnect sid → sockets st !! sid = Some u →
            ∀ s, sockets st !! s = Some u → s = sid) →
  presence_matches_connections (step env i st).
Proof.
  intros Hinv Hsole.
  assert (Hother : (∀ sid token, i ≠ Connect sid token) → (∀ sid, i ≠ Disconnect sid) →
                   presence_matches_connections (step env i st)).
  { intros Hc Hd u.
    destruct (step_keeps_presence env i st Hc Hd) as [-> ->]. apply Hinv. }
  destruct i as [sid token|sid c|sid c|sid c txt|sid c ty|sid];
    try (by apply Hother).
  - unfold step. destruct (sockets st !! sid) as [u0|] eqn:Hb.
    { by rewrite (handle_connect_bound env sid token u0 st Hb). }
    destruct (step_unbound_connect env sid token st Hb) as (a & calls & _ & ->).
    destruct a as [u0|]; [|exact Hinv].
    rewrite on_connection_run. intros u. simpl.
    destruct (decide (u0 = u)) as [->|Hne].
    + rewrite JSMapFacts.get_set_eq. split; [|by eexists].
      intros _. exists sid. apply lookup_insert_eq.
    + rewrite JSMapFacts.get_set_ne by done. rewrite (Hinv u). split.
      * intros [s Hs]. exists s. rewrite lookup_insert_ne; [done|]. congruence.
      * intros [s Hs]. exists s.
        destruct (decide (sid = s)) as [->|Hsid].
        -- rewrite lookup_insert_eq in Hs. congruence.
        -- by rewrite lookup_insert_ne in Hs.
  - unfold step. destruct (sockets st !! sid) as [u0|] eqn:Hb.
    2: { by rewrite (handle_disconnect_unbound _ _ _ Hb). }
    rewrite (handle_disconnect _ _ _ _ Hb). intros u. simpl.
    destruct (decide (u0 = u)) as [->|Hne].
    + rewrite JSMapFacts.get_delete_eq. split; [by intros [? ?]|].
      intros [s Hs]. exfalso.
      destruct (decide (sid = s)) as [->|Hsid].
      * by rewrite lookup_delete_eq in Hs.
      * rewrite lookup_delete_ne in Hs by done.
        apply Hsid. symmetry. by apply (Hsole sid u eq_refl Hb).
    + rewrite JSMapFacts.get_delete_ne by done. rewrite (Hinv u). split.
      * intros [s Hs]. exists s. rewrite lookup_delete_ne; [done|]. congruence.
      * intros [s Hs]. exists s.
        destruct (decide (sid = s)) as [->|Hsid].
        -- by rewrite lookup_delete_eq in Hs.
        -- by rewrite lookup_delete_ne in Hs.
Qed.

(** ** Joining and leaving a chat channel *)

Lemma successful_send_log env sid u chatId txt st c uid oid :
  sockets st !! sid = Some u →
  castObjectId u = Some uid → castObjectId chatId = Some oid →
  send_succeeds env uid oid st c →
  outbox env (SendMessage sid chatId txt) st =
  let populated := populate_sender (users st) (created_message env uid oid txt) in
  mkEmission (ToRoom (chat_room chatId)) (new_message populated)
    (room_members st (chat_room chatId))
  :: ((λ p, mkEmission (ToRoom (user_room (toString p))) (new_message populated)
              (room_members st (user_room (toString p)))) <$> participants c).
Proof.
  intros Hs Hu Hc Hok. unfold outbox. rewrite handle_send, Hs.
  by rewrite (on_send_message_success env sid u chatId txt st c uid oid Hu Hc Hok).
Qed.



(** ** Who is shown a typing signal *)

(** X11. When the chat lookup returns a chat with a participant other than
    the sender, a typing signal reaches every other socket as follows: once
    if it is in the chat's channel, and once more if it is authenticated as
    the first such participant.  The handler does not ask whether the sender
    is a participant of the chat. *)
Theorem typing_reaches_the_first_other_participant
    env sid u chatId isTyping st c oid other s :
  reachable st →
  sockets st !! sid = Some u →
  db_throws env Chat_findById_op = false →
  castObjectId chatId = Some oid →
  find (λ c, bool_decide (chat_id c = oid)) (chats st) = Some c →
  find (λ p, bool_decide (toString p ≠ u)) (participants c) = Some other →
  s ≠ sid →
  let payload := typing u chatId isTyping in
  received s (outbox env (TypingSignal sid chatId isTyping) st) =
  ((if decide (s ∈ room_members st (chat_room chatId)) then [payload] else [])
   ++ (if decide (sockets st !! s = Some (toString other)) then [payload] else []))%list.
Proof.
  intros Hreach Hs Hdb Hoid Hc Hother Hne payload.
  assert (Hinv := reachable_personal_rooms st Hreach).
  unfold outbox. rewrite handle_typing, Hs, on_typing_run, Hoid, Hdb, Hc, Hother.
  cbn [emitted]. rewrite !received_cons. cbn [recipients event]. unfold received.
  rewrite filter_nil. cbn [fmap list_fmap].
  destruct (decide (s ∈ room_members st (chat_room chatId))) as [Hin|Hout].
  - rewrite decide_True.
    2: { apply elem_of_difference. split; [done|]. by rewrite elem_of_singleton. }
    destruct (decide (sockets st !! s = Some (toString other))) as [Hso|Hso].
    + rewrite decide_True; [done|]. by apply Hinv.
    + rewrite decide_False; [done|]. by rewrite (Hinv (toString other) s).
  - rewrite decide_False by (by intros [? _]%elem_of_difference).
    destruct (decide (sockets st !! s = Some (toString other))) as [Hso|Hso].
    + rewrite decide_True; [done|]. by apply Hinv.
    + rewrite decide_False; [done|]. by rewrite (Hinv (toString other) s).
Qed.

(** ** Admission, again *)

(** X2. A handshake that the middleware rejects, for whatever reason, leaves
    nothing behind: the socket is not connected, no channel gains a member,
    the presence map and the collections are as before, and nothing is
    emitted, to this client or to anyone else. *)
Theorem rejected_handshake_leaves_no_trace env sid token reason st :
  sockets st !! sid = None →
  completion (auth_middleware env token st) = Normal (Rejected reason) →
  let st' := step env (Connect sid token) st in
  outbox env (Connect sid token) st = [] ∧
  sockets st' = sockets st ∧ rooms st' = rooms st ∧
  onlineUsers st' = onlineUsers st ∧
  users st' = users st ∧ chats st' = chats st ∧ messages st' = messages st.
Proof.
  intros Hnew Hrej st'.
  destruct (step_unbound_connect env sid token st Hnew) as (a & calls & Ha & Hh).
  rewrite Ha in Hrej. simpl in Hrej. injection Hrej as ->.
  unfold st', step, outbox. by rewrite Hh.
Qed.

(** X3. The middleware accepts a handshake only with a non-empty token that
    [verifyToken] verifies, and only as the _id of a user document whose
    clerkId is the verified subject.  Of the two reasons it gives when it
    rejects, "User not found!" is given only after a successful verification
    and a completed lookup that found no such user; a missing token, a failed
    verification and a failed lookup all read "Unauthorized". *)
Theorem admission_is_sound env token st :
  (∀ u, completion (auth_middleware env token st) = Normal (Accepted u) →
        ∃ tok sub usr,
          token = Some tok ∧ tok ≠ "" ∧ verifyToken env tok = Some sub ∧
          usr ∈ users st ∧ clerkId usr = sub ∧ toString (user_id usr) = u) ∧
  (∀ reason, completion (auth_middleware env token st) = Normal (Rejected reason) →
        reason = "Unauthorized" ∨
        (reason = "User not found!" ∧
         ∃ tok sub,
           token = Some tok ∧ verifyToken env tok = Some sub ∧
           db_throws env User_findOne_op = false ∧
           ∀ usr, usr ∈ users st → clerkId usr ≠ sub)).
Proof.
  unfold auth_middleware. destruct token as [tok|]; simpl.
  2: { split; [by intros u [=] | intros reason [= <-]; by left]. }
  destruct (bool_decide (tok = "")) eqn:Htok.
  { split; [by intros u [=] | intros reason [= <-]; by left]. }
  apply bool_decide_eq_false in Htok.
  unfold try_catch, mbind, M_bind, bind, User_findOne, awaited. simpl.
  destruct (verifyToken env tok) as [sub|] eqn:Hv; simpl.
  2: { split; [by intros u [=] | intros reason [= <-]; by left]. }
  destruct (db_throws env User_findOne_op) eqn:Hdb; simpl.
  { split; [by intros u [=] | intros reason [= <-]; by left]. }
  destruct (find _ (users st)) as [usr|] eqn:Hfind; simpl.
  - split; [|by intros reason [=]]. intros u [= <-].
    apply find_some_of in Hfind as [Hin Hc]. apply bool_decide_eq_true in Hc.
    by exists tok, sub, usr.
  - split; [by intros u [=]|]. intros reason [= <-]. right. split; [done|].
    exists tok, sub. repeat split; try done. intros usr Hin Hc.
    apply list_elem_of_In in Hin.
    apply (find_none _ _ Hfind) in Hin. by apply bool_decide_eq_false in Hin.
Qed.

(** X14. In every reachable state each connected socket is bound to the _id
    of a document of the User collection, which the gateway never writes; so
    a new-message event always carries the details of its sender: the name,
    email and avatar of a user document whose _id is the sender's identity,
    never a dangling reference. *)
Theorem new_message_carries_its_senders_details env i st e m :
  reachable st →
  e ∈ outbox env i st →
  event e = new_message m →
  ∃ usr,
    usr ∈ users st ∧ user_id usr = pm_sender_id m ∧
    pm_sender m
      = Some (mkSenderDetails (user_id usr) (name usr) (email usr) (avatar usr)).
Proof.
  intros Hreach He Hev.
  destruct (new_message_origin env i st e m He Hev)
    as (sid & chatId & txt & u & c & uid & _ & Hs & Hu & _ & _ & _ & -> & _).
  destruct (reachable_sockets_are_users st Hreach sid u Hs) as (usr0 & Hin0 & Hid0).
  assert (Huid : uid = user_id usr0) by (by apply (cast_spelling u)).
  unfold populate_sender. simpl.
  destruct (find _ (users st)) as [usr|] eqn:Hfind.
  - apply find_some_of in Hfind as [Hin Hid]. apply bool_decide_eq_true in Hid.
    by exists usr.
  - apply list_elem_of_In in Hin0. apply (find_none _ _ Hfind) in Hin0.
    apply bool_decide_eq_false in Hin0. done.
Qed.

(** * The HTTP side *)

(** ** CORS origins *)

(** X21. The list of allowed origins never holds the empty string: it is the
    two development origins, followed by FRONTEND_URL exactly when that
    variable is set to a non-empty value. *)
Theorem allowed_origins_has_no_empty_entry (FRONTEND_URL : option string) :
("" ∉ allowedOrigins FRONTEND_URL) ∧
  allowedOrigins FRONTEND_URL =
    ([ "http://localhost:8081"; "http://localhost:5173" ]
     ++ match FRONTEND_URL with
        | Some url => if decide (url = "") then [] else [url]
        | None => []
        end)%list.
Proof.
  split.
  - unfold allowedOrigins. intros [H _]%list_elem_of_filter. done.
  - unfold allowedOrigins. destruct FRONTEND_URL as [url|]; cbn [falsy default].
    + destruct (decide (url = "")) as [->|Hne].
      * rewrite bool_decide_true by done.
        rewrite filter_cons_True, filter_cons_True by done.
        by rewrite filter_cons_False by (intros H; by apply H).
      * rewrite bool_decide_false by done.
        by rewrite !filter_cons_True by done.
    + rewrite filter_cons_True, filter_cons_True by done.
      by rewrite filter_cons_False by (intros H; by apply H).
Qed.

(** ** Identity on the HTTP side *)

(** X16. The HTTP middleware and the socket middleware bind the same
    identity: for a non-empty token that verifies to a Clerk subject, the
    socket handshake is accepted as [u] exactly when [protectedRoute], given
    that subject, lets the request through with req.userId = [u]. *)
Theorem http_and_socket_identities_agree henv tok sub u st :
  tok ≠ "" →
  verifyToken (shared henv) tok = Some sub →
  completion (auth_middleware (shared henv) (Some tok) st) = Normal (Accepted u)
  ↔ completion (protectedRoute henv sub st) = Normal (Proceed u).
Proof.
  intros Htok Hv. unfold auth_middleware, protectedRoute. simpl.
  rewrite bool_decide_false by done.
  unfold try_catch, mbind, M_bind, bind, User_findOne, awaited. simpl.
  rewrite Hv. simpl.
  destruct (db_throws (shared henv) User_findOne_op); simpl; [done|].
  destruct (find _ (users st)) as [usr|]; simpl; [|done].
  split; intros [= <-]; done.
Qed.

Lemma protectedRoute_proceeds henv clerk st u :
  completion (protectedRoute henv clerk st) = Normal (Proceed u) →
  final (protectedRoute henv clerk st) = st ∧
  ∃ usr, usr ∈ users st ∧ clerkId usr = clerk ∧ toString (user_id usr) = u.
Proof.
  unfold protectedRoute, try_catch, mbind, M_bind, bind, User_findOne, awaited.
  simpl. destruct (db_throws (shared henv) User_findOne_op); simpl; [done|].
  destruct (find _ (users st)) as [usr|] eqn:Hfind; simpl; [|done].
  intros [= <-]. split; [done|].
  apply find_some_of in Hfind as [Hin Hc]. apply bool_decide_eq_true in Hc.
  by exists usr.
Qed.

(** X22. Behind [protectedRoute], getMe never answers 404: when the
    middleware lets a request through and the lookup by _id completes, the
    answer is 200 with a user document whose _id is the identity the
    middleware bound. *)
Theorem getMe_behind_protectedRoute_finds_the_user henv clerk st u :
  completion (protectedRoute henv clerk st) = Normal (Proceed u) →
  http_throws henv User_findById_op = false →
  ∃ usr,
    getMe henv u (final (protectedRoute henv clerk st))
      = mkRun (Normal [Json 200 usr]) st [] ∧
    usr ∈ users st ∧ toString (user_id usr) = u.
Proof.
  intros Hp Hdb. destruct (protectedRoute_proceeds henv clerk st u Hp)
    as (-> & usr0 & Hin0 & _ & Hid0).
  unfold getMe, try_catch, mbind, M_bind, bind, User_findById, awaited_http.
  rewrite Hdb. simpl.
  destruct (find _ (users st)) as [usr|] eqn:Hfind; simpl.
  - exists usr. split; [done|]. apply find_some_of in Hfind as [Hin Hid].
    by apply bool_decide_eq_true in Hid.
  - apply list_elem_of_In in Hin0. apply (find_none _ _ Hfind) in Hin0.
    by apply bool_decide_eq_false in Hin0.
Qed.

(** ** The user directory *)

(** X15. When the query completes, getUsers answers 200 with at most 50
    entries, each the selected fields of a user document other than the
    requester's; the requester is never listed, the collection is not
    changed, and when there are at most 50 other users every one of them is
    listed. *)
Theorem getUsers_lists_the_other_users henv userId st :
  http_throws henv User_find_op = false →
  ∃ found,
    getUsers henv userId st = mkRun (Normal [Json 200 found]) st [] ∧
    (length found ≤ 50)%nat ∧
    (∀ d, d ∈ found →
       toString (sd_id d) ≠ userId ∧ ∃ usr, usr ∈ users st ∧ d = profile usr) ∧
    ((length (filter (λ usr, toString (user_id usr) ≠ userId) (users st)) ≤ 50)%nat →
     ∀ usr, usr ∈ users st → toString (user_id usr) ≠ userId →
            profile usr ∈ found).
Proof.
  intros Hdb.
  exists (take 50 (profile <$> filter (λ usr, toString (user_id usr) ≠ userId)
                                 (users st))).
  split.
  { unfold getUsers, try_catch, mbind, M_bind, bind, User_find_others,
      awaited_http. by rewrite Hdb. }
  split; [rewrite length_take; lia|]. split.
  - intros d Hd. apply elem_of_take in Hd as (j & Hd & _).
    apply list_elem_of_lookup_2 in Hd.
    apply list_elem_of_fmap in Hd as (usr & -> & Husr).
    apply list_elem_of_filter in Husr as [Hne Hin]. split; [done|]. by exists usr.
  - intros Hfew usr Hin Hne. rewrite take_ge by (by rewrite length_fmap).
    apply list_elem_of_fmap_2. by apply list_elem_of_filter.
Qed.

(** ** Opening a chat *)

(** The $all query, path by path. *)
Lemma Chat_findOne_all_run henv userId participantId st :
  Chat_findOne_all henv userId participantId st =
  match castObjectId userId, castObjectId participantId with
  | Some uid, Some pid =>
      if http_throws henv Chat_findOne_all_op
      then mkRun (Throw "database error") st []
      else
        mkRun (Normal (populate_chat st
                       <$> find (λ c, bool_decide (uid ∈ participants c
                                                   ∧ pid ∈ participants c))
                                (chats st))) st []
  | _, _ => mkRun (Throw "CastError") st []
  end.
Proof.
  unfold Chat_findOne_all, cast_id, awaited_http, mbind, M_bind, bind.
  destruct (castObjectId userId) as [uid|]; [|done].
  destruct (castObjectId participantId) as [pid|]; [|done].
  by destruct (http_throws henv Chat_findOne_all_op).
Qed.

Lemma new_Chat_run henv userId participantId st uid pid :
  castObjectId userId = Some uid → castObjectId participantId = Some pid →
  new_Chat henv userId participantId st =
  mkRun (Normal (mkChat (newObjectId (shared henv)) [uid; pid] None
                        (new_lastMessageAt henv) (now (shared henv)))) st [].
Proof.
  intros Hu Hp. unfold new_Chat, cast_id, mbind, M_bind, bind.
  by rewrite Hu, Hp.
Qed.

(** getOrCreateChat, path by path. *)
Lemma getOrCreateChat_run henv userId participantId st :
  getOrCreateChat henv userId participantId st =
  let failed (e : string) st' : Run (list (Reply ChatSummary)) :=
    mkRun (Normal [NextError e]) st' [] in
  if bool_decide (participantId = "")
  then mkRun (Normal [JsonMessage 400 "Participant ID is required"]) st []
  else if negb (isValid henv participantId)
  then mkRun (Normal [JsonMessage 400 "Invalid participant ID"]) st []
  else if bool_decide (userId = participantId)
  then mkRun (Normal [JsonMessage 400 "You cannot chat with yourself"]) st []
  else
    match castObjectId userId, castObjectId participantId with
    | Some uid, Some pid =>
        if http_throws henv Chat_findOne_all_op then failed "database error" st
        else
          match find (λ c, bool_decide (uid ∈ participants c
                                        ∧ pid ∈ participants c))
                     (chats st) with
          | Some c =>
              mkRun (Normal [Json 200 (summarize userId (populate_chat st c))]) st []
          | None =>
              let newChat :=
                mkChat (newObjectId (shared henv)) [uid; pid] None
                       (new_lastMessageAt henv) (now (shared henv)) in
              let st1 := with_chats (λ cs, (cs ++ [newChat])%list) st in
              if http_throws henv Chat_new_save_op then failed "database error" st
              else if http_throws henv Chat_populate_op
              then failed "database error" st1
              else
                mkRun (Normal [Json 200 (summarize userId
                         (mkPopulatedChat (chat_id newChat)
                            (populate_participants (users st) (participants newChat))
                            None (lastMessageAt newChat) (createdAt newChat)))]) st1 []
          end
    | _, _ => failed "CastError" st
    end.
Proof.
  unfold getOrCreateChat, try_catch. cbv zeta.
  destruct (bool_decide (participantId = "")); [done|].
  destruct (negb (isValid henv participantId)); [done|].
  destruct (bool_decide (userId = participantId)); [done|].
  pose proof (Chat_findOne_all_run henv userId participantId st) as Hrun.
  destruct (castObjectId userId) as [uid|] eqn:Hu.
  2: { by erewrite bind_throw by exact Hrun. }
  destruct (castObjectId participantId) as [pid|] eqn:Hp.
  2: { by erewrite bind_throw by exact Hrun. }
  destruct (http_throws henv Chat_findOne_all_op).
  { by erewrite bind_throw by exact Hrun. }
  erewrite bind_normal by exact Hrun. clear Hrun. reduce_run.
  destruct (find _ (chats st)) as [c|]; cbn [fmap option_fmap option_map].
  { by erewrite bind_normal by reflexivity. }
  set (newChat := mkChat (newObjectId (shared henv)) [uid; pid] None
                         (new_lastMessageAt henv) (now (shared henv))).
  assert (Hnew :
    (newChat ← new_Chat henv userId participantId;
     Chat_new_save henv newChat;; Chat_populate henv newChat) st =
    if http_throws henv Chat_new_save_op
    then mkRun (Throw "database error") st []
    else if http_throws henv Chat_populate_op
    then mkRun (Throw "database error")
           (with_chats (λ cs, (cs ++ [newChat])%list) st) []
    else
      mkRun (Normal (mkPopulatedChat (chat_id newChat)
                       (populate_participants (users st) (participants newChat))
                       None (lastMessageAt newChat) (createdAt newChat)))
        (with_chats (λ cs, (cs ++ [newChat])%list) st) []).
  { erewrite bind_normal by (by apply new_Chat_run). reduce_run.
    unfold Chat_new_save, Chat_populate, awaited_http.
    destruct (http_throws henv Chat_new_save_op).
    { by erewrite bind_throw by reflexivity. }
    erewrite bind_normal by reflexivity. reduce_run.
    by destruct (http_throws henv Chat_populate_op). }
  destruct (http_throws henv Chat_new_save_op).
  { by erewrite bind_throw by exact Hnew. }
  destruct (http_throws henv Chat_populate_op).
  { by erewrite bind_throw by exact Hnew. }
  by erewrite bind_normal by exact Hnew.
Qed.

(** X17. The three checks on the path parameter come before any database
    call: an empty id, an id that is not a valid ObjectId, and the
    requester's own id are each answered 400, whether or not the database
    answers, and the state is left as it was. *)
Theorem chat_request_is_checked_before_the_database henv userId participantId st :
  participantId = "" ∨ isValid henv participantId = false
    ∨ userId = participantId →
  ∃ message,
    getOrCreateChat henv userId participantId st
      = mkRun (Normal [JsonMessage 400 message]) st [] ∧
    message =
      if decide (participantId = "") then "Participant ID is required"
      else if isValid henv participantId then "You cannot chat with yourself"
      else "Invalid participant ID".
Proof.
  intros Hbad. rewrite getOrCreateChat_run. cbv zeta.
  destruct (decide (participantId = "")) as [->|Hne].
  { rewrite bool_decide_true by done. by eexists. }
  rewrite bool_decide_false by done.
  destruct (isValid henv participantId) eqn:Hvalid; simpl; [|by eexists].
  destruct Hbad as [?|[?| ->]]; [done..|].
  rewrite bool_decide_true by done. by eexists.
Qed.

(** X18. getOrCreateChat writes at most one thing: a new chat document, added
    at the end of the collection, whose participants are the requester's id
    and the requested id, as Mongoose casts the two strings, in that order.
    It does so only when the two strings differ, the requested one is
    non-empty and passes isValid, and no chat listing both cast ids existed;
    otherwise the Chat collection is unchanged.  Nothing else of the state is
    ever touched. *)
Theorem chat_is_created_only_when_missing henv userId participantId st :
  let st' := final (getOrCreateChat henv userId participantId st) in
  users st' = users st ∧ messages st' = messages st ∧
  sockets st' = sockets st ∧ rooms st' = rooms st ∧
  onlineUsers st' = onlineUsers st ∧
  (chats st' = chats st ∨
   ∃ c uid pid,
     chats st' = (chats st ++ [c])%list ∧
     castObjectId userId = Some uid ∧ castObjectId participantId = Some pid ∧
     participants c = [uid; pid] ∧
     userId ≠ participantId ∧ participantId ≠ "" ∧
     isValid henv participantId = true ∧
     ∀ c0, c0 ∈ chats st →
           ¬ (uid ∈ participants c0 ∧ pid ∈ participants c0)).
Proof.
  rewrite getOrCreateChat_run. cbv zeta.
  destruct (bool_decide (participantId = "")) eqn:H1; [simpl; tauto|].
  destruct (isValid henv participantId) eqn:H2; simpl; [|tauto].
  destruct (bool_decide (userId = participantId)) eqn:H3; [simpl; tauto|].
  destruct (castObjectId userId) as [uid|] eqn:Hu; [|simpl; tauto].
  destruct (castObjectId participantId) as [pid|] eqn:Hp; [|simpl; tauto].
  destruct (http_throws henv Chat_findOne_all_op); [simpl; tauto|].
  destruct (find _ (chats st)) as [c|] eqn:Hfind; [simpl; tauto|].
  destruct (http_throws henv Chat_new_save_op); [simpl; tauto|].
  apply bool_decide_eq_false in H1, H3.
  assert (Hnone : ∀ c0, c0 ∈ chats st →
            ¬ (uid ∈ participants c0 ∧ pid ∈ participants c0)).
  { intros c0 Hin. apply list_elem_of_In in Hin.
    apply (find_none _ _ Hfind) in Hin. by apply bool_decide_eq_false in Hin. }
  destruct (http_throws henv Chat_populate_op); cbn [final];
    (repeat (split; [done|])); right;
    by exists (mkChat (newObjectId (shared henv)) [uid; pid] None
                      (new_lastMessageAt henv) (now (shared henv))), uid, pid.
Qed.

(** What a 200 answer of getOrCreateChat says about the state it leaves: both
    ids cast, and the first chat listing both carries the _id of the
    answer. *)
Lemma opened_chat_is_the_first_match henv userId participantId st s :
  completion (getOrCreateChat henv userId participantId st) = Normal [Json 200 s] →
  participantId ≠ "" ∧ userId ≠ participantId ∧
  ∃ uid pid c,
    castObjectId userId = Some uid ∧ castObjectId participantId = Some pid ∧
    find (λ c, bool_decide (uid ∈ participants c ∧ pid ∈ participants c))
         (chats (final (getOrCreateChat henv userId participantId st))) = Some c ∧
    chat_id c = summary_id s.
Proof.
  rewrite getOrCreateChat_run. cbv zeta.
  destruct (bool_decide (participantId = "")) eqn:H1; [done|].
  destruct (negb (isValid henv participantId)); [done|].
  destruct (bool_decide (userId = participantId)) eqn:H3; [done|].
  apply bool_decide_eq_false in H1, H3.
  destruct (castObjectId userId) as [uid|] eqn:Hu; [|done].
  destruct (castObjectId participantId) as [pid|] eqn:Hp; [|done].
  destruct (http_throws henv Chat_findOne_all_op); [done|].
  destruct (find _ (chats st)) as [c|] eqn:Hfind.
  { cbn [completion final]. intros [= <-]. repeat split; try done.
    by exists uid, pid, c. }
  destruct (http_throws henv Chat_new_save_op); [done|].
  destruct (http_throws henv Chat_populate_op); [done|].
  cbn [completion final]. intros [= <-]. repeat split; try done.
  exists uid, pid, (mkChat (newObjectId (shared henv)) [uid; pid] None
                      (new_lastMessageAt henv) (now (shared henv))).
  split; [done|]. split; [done|]. split; [|done].
  simpl. rewrite (find_app_none _ _ _ Hfind). simpl.
  rewrite bool_decide_true; [done|]. split; [left | right; left].
Qed.

Lemma getOrCreateChat_finds henv userId participantId st c uid pid :
  participantId ≠ "" → userId ≠ participantId →
  isValid henv participantId = true →
  castObjectId userId = Some uid → castObjectId participantId = Some pid →
  http_throws henv Chat_findOne_all_op = false →
  find (λ c, bool_decide (uid ∈ participants c ∧ pid ∈ participants c))
       (chats st) = Some c →
  ∃ s, getOrCreateChat henv userId participantId st
         = mkRun (Normal [Json 200 s]) st [] ∧
       summary_id s = chat_id c.
Proof.
  intros H1 H3 H2 Hu Hp Hdb Hfind. rewrite getOrCreateChat_run. cbv zeta.
  rewrite !bool_decide_false by done. rewrite H2, Hu, Hp, Hdb, Hfind. simpl.
  by eexists.
Qed.

(** X19. Opening a chat is find-or-create: once getOrCreateChat has answered
    200, asking again for the same pair, by either of the two users, answers
    200 with the same chat _id and writes nothing. *)
Theorem opening_a_chat_again_gives_the_same_chat
    henv henv' userId participantId st s :
  completion (getOrCreateChat henv userId participantId st) = Normal [Json 200 s] →
  http_throws henv' Chat_findOne_all_op = false →
  isValid henv' participantId = true →
  isValid henv' userId = true →
  userId ≠ "" →
  let st1 := final (getOrCreateChat henv userId participantId st) in
  (∃ s2, getOrCreateChat henv' userId participantId st1
           = mkRun (Normal [Json 200 s2]) st1 [] ∧
         summary_id s2 = summary_id s) ∧
  (∃ s3, getOrCreateChat henv' participantId userId st1
           = mkRun (Normal [Json 200 s3]) st1 [] ∧
         summary_id s3 = summary_id s).
Proof.
  intros Hok Hdb Hvp Hvu Hne0 st1.
  destruct (opened_chat_is_the_first_match henv userId participantId st s Hok)
    as (Hp & Hne & uid & pid & c & Hu & Hpid & Hfind & Hid).
  split.
  - destruct (getOrCreateChat_finds henv' userId participantId st1 c uid pid)
      as (s2 & Hrun & Hs2); try done.
    exists s2. split; [done|]. congruence.
  - destruct (getOrCreateChat_finds henv' participantId userId st1 c pid uid)
      as (s3 & Hrun & Hs3); try done.
    + rewrite <- Hfind. apply find_ext_bool. intros x.
      apply bool_decide_ext. tauto.
    + exists s3. split; [done|]. congruence.
Qed.

(** X20. A chat that getOrCreateChat has answered with can be written to by
    both of its users: the _id of the answer, as the client reads it, casts
    back to that _id, and for the requester and for the requested user alike
    the participant check of send-message finds a chat under it, so that, the
    database answering, a send to it succeeds. *)
Theorem an_opened_chat_accepts_both_users henv env userId participantId st s :
  completion (getOrCreateChat henv userId participantId st) = Normal [Json 200 s] →
  (∀ op, db_throws env op = false) →
  let st1 := final (getOrCreateChat henv userId participantId st) in
  castObjectId (toString (summary_id s)) = Some (summary_id s) ∧
  (∃ uid c, castObjectId userId = Some uid ∧
            send_succeeds env uid (summary_id s) st1 c) ∧
  (∃ pid c, castObjectId participantId = Some pid ∧
            send_succeeds env pid (summary_id s) st1 c).
Proof.
  intros Hok Hdb st1.
  destruct (opened_chat_is_the_first_match henv userId participantId st s Hok)
    as (_ & _ & uid & pid & c & Hu & Hpid & Hfind & Hid).
  apply find_some_of in Hfind as [Hin Hboth].
  apply bool_decide_eq_true in Hboth as [Hiu Hip].
  split; [apply cast_toString|]. split.
  - destruct (find_exists
      (λ c, bool_decide (chat_id c = summary_id s ∧ uid ∈ participants c))
      (chats st1) c Hin) as (c1 & Hc1 & _); [by apply bool_decide_eq_true|].
    exists uid, c1. split; [done|]. by repeat split.
  - destruct (find_exists
      (λ c, bool_decide (chat_id c = summary_id s ∧ pid ∈ participants c))
      (chats st1) c Hin) as (c2 & Hc2 & _); [by apply bool_decide_eq_true|].
    exists pid, c2. split; [done|]. by repeat split.
Qed.

(** X24. The chat is saved before it is populated: when that last call
    rejects, the request is passed to the error handler although the new
    chat, listing the two ids as cast, is already in the collection; asking
    again then answers 200 with that chat's _id and creates nothing. *)
Theorem chat_survives_a_failed_populate
    henv henv' userId participantId st uid pid :
  participantId ≠ "" → userId ≠ participantId →
  isValid henv participantId = true → isValid henv' participantId = true →
  castObjectId userId = Some uid → castObjectId participantId = Some pid →
  (∀ c, c ∈ chats st → ¬ (uid ∈ participants c ∧ pid ∈ participants c)) →
  http_throws henv Chat_findOne_all_op = false →
  http_throws henv Chat_new_save_op = false →
  http_throws henv Chat_populate_op = true →
  http_throws henv' Chat_findOne_all_op = false →
  let newChat :=
    mkChat (newObjectId (shared henv)) [uid; pid] None
           (new_lastMessageAt henv) (now (shared henv)) in
  let st1 := with_chats (λ cs, (cs ++ [newChat])%list) st in
  getOrCreateChat henv userId participantId st
    = mkRun (Normal [NextError "database error"]) st1 [] ∧
  ∃ s, getOrCreateChat henv' userId participantId st1
         = mkRun (Normal [Json 200 s]) st1 [] ∧
       summary_id s = newObjectId (shared henv).
Proof.
  intros H1 H3 H2 H2' Hu Hp Hnone Ha Hb Hc Ha' newChat st1.
  assert (Hfind :
    find (λ c, bool_decide (uid ∈ participants c ∧ pid ∈ participants c))
         (chats st) = None).
  { apply find_none_of. intros c Hin. apply bool_decide_eq_false. by apply Hnone. }
  split.
  - rewrite getOrCreateChat_run. cbv zeta.
    rewrite !bool_decide_false by done. by rewrite H2, Hu, Hp, Ha, Hfind, Hb, Hc.
  - destruct (getOrCreateChat_finds henv' userId participantId st1 newChat uid pid)
      as (s & Hrun & Hs); try done.
    { simpl. rewrite (find_app_none _ _ _ Hfind). simpl.
      rewrite bool_decide_true; [done|]. split; [left | right; left]. }
    by exists s.
Qed.

(** X23. getUsers, getChats and getOrCreateChat make exactly one call on the
    response or on next, on every path, and so does getMe when its lookup
    completes;
    when the lookup rejects, getMe both answers 500 and passes the error on
    to the error handler. *)
Theorem controllers_answer_once henv userId participantId st :
  (∃ r, completion (getUsers henv userId st) = Normal [r]) ∧
  (∃ r, completion (getChats henv userId st) = Normal [r]) ∧
  (∃ r, completion (getOrCreateChat henv userId participantId st) = Normal [r]) ∧
  (if http_throws henv User_findById_op
   then completion (getMe henv userId st)
        = Normal [JsonMessage 500 "Internal server error";
                  NextError "database error"]
   else ∃ r, completion (getMe henv userId st) = Normal [r]).
Proof.
  split; [|split; [|split]].
  - unfold getUsers, try_catch, mbind, M_bind, bind, User_find_others, awaited_http.
    destruct (http_throws henv User_find_op); simpl; by eexists.
  - unfold getChats, try_catch, mbind, M_bind, bind, Chat_find_mine, awaited_http.
    destruct (http_throws henv Chat_find_op); simpl; by eexists.
  - rewrite getOrCreateChat_run. cbv zeta.
    repeat (match goal with
            | |- context [if ?b then _ else _] => destruct b
            | |- context [match castObjectId ?x with _ => _ end] =>
                destruct (castObjectId x)
            | |- context [match find ?f ?l with _ => _ end] => destruct (find f l)
            end; try (simpl; by eexists)).
  - unfold getMe, try_catch, mbind, M_bind, bind, User_findById, awaited_http.
    destruct (http_throws henv User_findById_op); simpl; [done|].
    destruct (find _ (users st)); simpl; by eexists.
Qed.

(** ** Listing one's chats *)

Global Instance more_recent_total : Total more_recent.
Proof.
  intros c1 c2. unfold more_recent.
  destruct (pc_lastMessageAt c1), (pc_lastMessageAt c2); simpl; try tauto. lia.
Qed.

(** X25. When the query completes, getChats answers 200 with one entry for
    each chat that lists the requester and for no other chat, ordered from
    the most recent lastMessageAt to the oldest, chats without one last; the
    participant shown for a chat is never the requester; nothing is
    written. *)
Theorem getChats_lists_the_requesters_chats henv userId st :
  http_throws henv Chat_find_op = false →
  ∃ listed,
    getChats henv userId st = mkRun (Normal [Json 200 listed]) st [] ∧
    summary_id <$> listed
      ≡ₚ chat_id <$> filter (λ c, userId ∈ toString <$> participants c) (chats st) ∧
    Sorted (λ a b, activity_le (summary_lastMessageAt b) (summary_lastMessageAt a))
           listed ∧
    (∀ s d, s ∈ listed → participant s = Some d → toString (sd_id d) ≠ userId).
Proof.
  intros Hdb.
  set (mine := filter (λ c, userId ∈ toString <$> participants c) (chats st)).
  set (sorted := merge_sort more_recent (populate_chat st <$> mine)).
  exists (summarize userId <$> sorted). split; [|split; [|split]].
  - unfold getChats, try_catch, mbind, M_bind, bind, Chat_find_mine, awaited_http.
    by rewrite Hdb.
  - rewrite <- list_fmap_compose.
    transitivity (pc_id <$> sorted); [done|].
    unfold sorted. rewrite merge_sort_Permutation.
    by rewrite <- list_fmap_compose.
  - apply (Sorted_fmap _ more_recent); [done|].
    apply Sorted_merge_sort, _.
  - intros s d Hin Hd. apply list_elem_of_fmap in Hin as (c & -> & _).
    apply find_some_of in Hd as [_ Hd]. by apply bool_decide_eq_true in Hd.
Qed.

End Properties.

(** * Worked examples on the small deployment *)

#[local] Existing Instance hex_ids.

Import Scenario.
Import HttpScenario.

Lemma db0_fresh : fresh_process db0.
Proof. by repeat split. Qed.

Lemma ann_online_reachable : reachable ann_online.
Proof. apply reachable_run, reachable_start, db0_fresh. Qed.

Lemma both_online_reachable : reachable both_online.
Proof. apply reachable_run, reachable_start, db0_fresh. Qed.

Lemma ann_twice_reachable : reachable ann_twice.
Proof. apply reachable_run, both_online_reachable. Qed.

Lemma ann_in_chat9_reachable : reachable ann_in_chat9.
Proof. apply reachable_run, reachable_start. by repeat split. Qed.

(** The hex strings of the deployment cast to the ids they spell, in either
    case of the letters; a string of two characters does not cast. *)
Lemma spellings_cast :
  castObjectId u1 = Some (oid u1) ∧ castObjectId u2 = Some (oid u2) ∧
  castObjectId c1 = Some (oid c1) ∧ castObjectId c9 = Some (oid c9) ∧
  castObjectId C1 = Some (oid c1) ∧ castObjectId U1 = Some (oid u1) ∧
  castObjectId "c2" = None ∧
  toString (oid u1) = u1 ∧ toString (oid u2) = u2.
Proof. repeat split; vm_compute; reflexivity. Qed.

Lemma chats_of_both_online : chats both_online = [chat1].
Proof. vm_compute. reflexivity. Qed.

(** Ann's handshake on a fresh process: she is registered under "s1". *)
Lemma ann_registered_until_disconnect :
  sockets db0 !! "s1" = None ∧
  completion (auth_middleware healthy (Some "tokA") db0) = Normal (Accepted u1) ∧
  JSMap.get u1 (onlineUsers (step healthy (Connect "s1" (Some "tokA")) db0))
    = Some "s1".
Proof.
  assert (Hnew : sockets db0 !! "s1" = None) by reflexivity.
  assert (Hadm : completion (auth_middleware healthy (Some "tokA") db0)
                 = Normal (Accepted u1)) by (vm_compute; reflexivity).
  split; [exact Hnew|]. split; [exact Hadm|].
  destruct (accepted_identity_registered_until_disconnect
              healthy "s1" (Some "tokA") u1 db0 Hnew Hadm) as (Hreg & _).
  exact Hreg.
Defined.

(** Ann opens a second connection "s3" while "s1" is still registered: the
    online-users list sent to "s3" holds her own identity. *)
Lemma second_connection_is_told_its_own_identity :
  reachable ann_online ∧
  sockets ann_online !! "s3" = None ∧
  completion (auth_middleware healthy (Some "tokA") ann_online)
    = Normal (Accepted u1) ∧
  received "s3" (outbox healthy (Connect "s3" (Some "tokA")) ann_online)
    = [online_users [u1]] ∧
  u1 ∈ [u1].
Proof.
  split; [apply ann_online_reachable|].
  split; [vm_compute; reflexivity|].
  split; [vm_compute; reflexivity|].
  split; [vm_compute; reflexivity|].
  apply list_elem_of_singleton. reflexivity.
Qed.

Lemma bob_is_sent_the_keys_before_his_registration :
  sockets ann_online !! "s2" = None ∧
  completion (auth_middleware healthy (Some "tokB") ann_online)
    = Normal (Accepted u2) ∧
  received "s2" (outbox healthy (Connect "s2" (Some "tokB")) ann_online)
    = [online_users (JSMap.keys (onlineUsers ann_online))].
Proof.
  assert (Hnew : sockets ann_online !! "s2" = None) by (vm_compute; reflexivity).
  assert (Hadm : completion (auth_middleware healthy (Some "tokB") ann_online)
                 = Normal (Accepted u2)) by (vm_compute; reflexivity).
  split; [exact Hnew|]. split; [exact Hadm|].
  destruct (online_users_snapshot_precedes_registration
              healthy "s2" (Some "tokB") u2 ann_online
              ann_online_reachable Hnew Hadm) as (Hlist & _).
  exact Hlist.
Defined.

Lemma ann_second_connection_then_first_disconnects :
  sockets ann_online !! "s1" = Some u1 ∧
  JSMap.get u1 (onlineUsers ann_online) = Some "s1" ∧
  sockets ann_online !! "s3" = None ∧
  completion (auth_middleware healthy (Some "tokA") ann_online)
    = Normal (Accepted u1) ∧
  JSMap.get u1
    (onlineUsers (step healthy (Disconnect "s1")
                    (step healthy (Connect "s3" (Some "tokA")) ann_online)))
    = None.
Proof.
  assert (Hc1 : sockets ann_online !! "s1" = Some u1)
    by (vm_compute; reflexivity).
  assert (Hreg : JSMap.get u1 (onlineUsers ann_online) = Some "s1")
    by (vm_compute; reflexivity).
  assert (Hc2 : sockets ann_online !! "s3" = None) by (vm_compute; reflexivity).
  assert (Hadm : completion (auth_middleware healthy (Some "tokA") ann_online)
                 = Normal (Accepted u1)) by (vm_compute; reflexivity).
  split; [exact Hc1|]. split; [exact Hreg|]. split; [exact Hc2|].
  split; [exact Hadm|].
  destruct (disconnect_unregisters_by_identity_alone
              healthy healthy "s1" "s3" (Some "tokA") u1 ann_online []
              Hc1 Hreg Hc2 Hadm) as (_ & Hgone & _).
  - intros e He. by apply elem_of_nil in He.
  - intros e He. by apply elem_of_nil in He.
  - exact Hgone.
Defined.

Lemma bob_is_told_ann_went_offline :
  sockets both_online !! "s1" = Some u1 ∧
  received "s1" (outbox healthy (Disconnect "s1") both_online) = [].
Proof.
  assert (Hs : sockets both_online !! "s1" = Some u1)
    by (vm_compute; reflexivity).
  split; [exact Hs|].
  destruct (disconnect_broadcasts_user_offline healthy "s1" u1 both_online Hs)
    as (_ & Hself & _).
  exact Hself.
Defined.

Lemma empty_token_is_rejected :
  falsy (Some "") = true ∧
  step healthy (Connect "s9" (Some "")) both_online = both_online.
Proof.
  assert (Hf : falsy (Some "") = true) by reflexivity.
  split; [exact Hf|].
  destruct (no_credential_no_admission healthy "s9" (Some "") both_online Hf)
    as (_ & _ & Hsame & _).
  exact Hsame.
Defined.

Lemma no_chat_is_c2 :
  ∀ c, c ∈ chats both_online →
       ¬ (castObjectId c2 = Some (chat_id c) ∧
          ∃ uid, castObjectId u1 = Some uid ∧ uid ∈ participants c).
Proof.
  intros c Hc [Hid _]. rewrite chats_of_both_online in Hc.
  apply list_elem_of_singleton in Hc as ->.
  vm_compute in Hid. discriminate Hid.
Defined.

(** Ann sends to [c2], which names no chat, while the chat lookup rejects:
    her socket gets the generic error event and no socket-error event.  The
    same happens, with the database answering, when the chatId she sends is
    no ObjectId at all. *)
Lemma failed_lookup_yields_error_not_socket_error :
  sockets both_online !! "s1" = Some u1 ∧
  (∀ c, c ∈ chats both_online →
        ¬ (castObjectId c2 = Some (chat_id c) ∧
           ∃ uid, castObjectId u1 = Some uid ∧ uid ∈ participants c)) ∧
  outbox lookups_down (SendMessage "s1" c2 "hi") both_online
    = [ mkEmission (ToSocket "s1") (error "Failed to send message") {[ "s1" ]} ] ∧
  (¬ ∃ e message,
      e ∈ outbox lookups_down (SendMessage "s1" c2 "hi") both_online ∧
      event e = socket_error message) ∧
  castObjectId "c2" = None ∧
  outbox healthy (SendMessage "s1" "c2" "hi") both_online
    = [ mkEmission (ToSocket "s1") (error "Failed to send message") {[ "s1" ]} ].
Proof.
  split; [vm_compute; reflexivity|]. split; [exact no_chat_is_c2|].
  assert (Hlog :
    outbox lookups_down (SendMessage "s1" c2 "hi") both_online
    = [ mkEmission (ToSocket "s1") (error "Failed to send message") {[ "s1" ]} ])
    by (vm_compute; reflexivity).
  split; [exact Hlog|]. split.
  - rewrite Hlog. intros (e & message & He & Hev).
    apply list_elem_of_singleton in He as ->. discriminate Hev.
  - split; vm_compute; reflexivity.
Qed.

Lemma send_to_unknown_chat_is_refused :
  sockets both_online !! "s1" = Some u1 ∧
  (∀ c, c ∈ chats both_online →
        ¬ (castObjectId c2 = Some (chat_id c) ∧
           ∃ uid, castObjectId u1 = Some uid ∧ uid ∈ participants c)) ∧
  step healthy (SendMessage "s1" c2 "hi") both_online = both_online ∧
  outbox healthy (SendMessage "s1" c2 "hi") both_online
    = [ mkEmission (ToSocket "s1") (socket_error "Chat not found") {[ "s1" ]} ].
Proof.
  assert (Hs : sockets both_online !! "s1" = Some u1)
    by (vm_compute; reflexivity).
  split; [exact Hs|]. split; [exact no_chat_is_c2|].
  destruct (send_to_foreign_chat_is_refused
              healthy "s1" u1 c2 "hi" both_online Hs no_chat_is_c2)
    as (Hsame & _ & _ & Hlog & _).
  split; [exact Hsame|]. exact Hlog.
Defined.

Lemma chat1_found_for_ann : send_succeeds healthy (oid u1) (oid c1) both_online chat1.
Proof. repeat split; vm_compute; reflexivity. Defined.

Lemma chat1_participants_distinct : NoDup (participants chat1).
Proof. refine (bool_decide_unpack _ _). vm_compute. exact I. Defined.

Lemma bob_viewing_the_chat_gets_the_message_twice :
  let m :=
    mkPopulated (oid m1) (oid c1) (oid u1)
      (Some (mkSenderDetails (oid u1) "Ann" "ann@example.org" "")) "hi" in
  received "s2" (outbox healthy (SendMessage "s1" c1 "hi") both_online)
    = [new_message m; new_message m].
Proof.
  intros m.
  assert (Hs1 : sockets both_online !! "s1" = Some u1)
    by (vm_compute; reflexivity).
  assert (Hu : castObjectId u1 = Some (oid u1)) by (vm_compute; reflexivity).
  assert (Hc : castObjectId c1 = Some (oid c1)) by (vm_compute; reflexivity).
  assert (Hs2 : sockets both_online !! "s2" = Some (toString (oid u2)))
    by (vm_compute; reflexivity).
  assert (Hp : oid u2 ∈ participants chat1)
    by (refine (bool_decide_unpack _ _); vm_compute; exact I).
  assert (Hj : "s2" ∈ room_members both_online (chat_room c1))
    by (refine (bool_decide_unpack _ _); vm_compute; exact I).
  destruct (successful_send_fans_out_twice
              healthy "s1" u1 c1 "hi" both_online chat1 (oid u1) (oid c1)
              both_online_reachable Hs1 Hu Hc chat1_found_for_ann)
    as (usr & Hfind & _ & _ & _ & _ & _ & Htwice).
  assert (Husr : usr = ann) by (vm_compute in Hfind; by injection Hfind as <-).
  subst usr.
  destruct (Htwice chat1_participants_distinct) as (_ & Hboth).
  exact (Hboth "s2" (oid u2) Hs2 Hp Hj).
Defined.

(** Ann sends to [c9], whose participants array lists her twice: her personal
    channel is addressed twice, not once, and her one connection, which is
    viewing the chat, is delivered the message three times, not twice. *)
Lemma repeated_participant_is_notified_per_entry :
  reachable ann_in_chat9 ∧
  sockets ann_in_chat9 !! "s1" = Some u1 ∧
  castObjectId u1 = Some (oid u1) ∧ castObjectId c9 = Some (oid c9) ∧
  send_succeeds healthy (oid u1) (oid c9) ann_in_chat9 chat9 ∧
  participants chat9 = [oid u1; oid u1] ∧
  "s1" ∈ room_members ann_in_chat9 (chat_room c9) ∧
  let log := outbox healthy (SendMessage "s1" c9 "hi") ann_in_chat9 in
  target <$> log
    = [ToRoom (chat_room c9); ToRoom (user_room u1); ToRoom (user_room u1)] ∧
  length (filter (λ e, target e = ToRoom (user_room u1)) log) = 2 ∧
  length (received "s1" log) = 3.
Proof.
  split; [apply ann_in_chat9_reachable|].
  split; [vm_compute; reflexivity|].
  split; [vm_compute; reflexivity|].
  split; [vm_compute; reflexivity|].
  split; [repeat split; vm_compute; reflexivity|].
  split; [reflexivity|].
  split; [refine (bool_decide_unpack _ _); vm_compute; exact I|].
  repeat split; vm_compute; reflexivity.
Qed.

Lemma chat_ids_distinct : NoDup (chat_id <$> chats both_online).
Proof. refine (bool_decide_unpack _ _). vm_compute. exact I. Defined.

Lemma chat1_summary_after_hi :
  messages (step healthy (SendMessage "s1" c1 "hi") both_online)
    = [mkMessage (oid m1) (oid c1) (oid u1) "hi"].
Proof.
  assert (Hs : sockets both_online !! "s1" = Some u1)
    by (vm_compute; reflexivity).
  assert (Hu : castObjectId u1 = Some (oid u1)) by (vm_compute; reflexivity).
  assert (Hc : castObjectId c1 = Some (oid c1)) by (vm_compute; reflexivity).
  destruct (successful_send_updates_chat_summary_only
              healthy "s1" u1 c1 "hi" both_online chat1 (oid u1) (oid c1)
              Hs Hu Hc chat1_found_for_ann chat_ids_distinct) as (Hmsgs & _).
  exact Hmsgs.
Defined.

(** Ann types in [c1] on "s1" while the chat lookup rejects: chat [c1] exists
    and Bob is its first participant other than Ann, yet the only emission is
    the one to the chat channel; Bob's personal channel is not addressed.
    And with every call answering, Ann's second connection "s3", which is
    viewing [c1], is delivered her own typing signal. *)
Lemma failed_lookup_skips_the_personal_channel :
  reachable both_online ∧
  sockets both_online !! "s1" = Some u1 ∧
  castObjectId c1 = Some (oid c1) ∧
  find (λ c, bool_decide (chat_id c = oid c1)) (chats both_online) = Some chat1 ∧
  find (λ p, bool_decide (toString p ≠ u1)) (participants chat1) = Some (oid u2) ∧
  outbox lookups_down (TypingSignal "s1" c1 true) both_online
    = [ mkEmission (ToRoomExcept (chat_room c1) "s1")
          (typing u1 c1 true) {[ "s2" ]} ] ∧
  (¬ ∃ e,
      e ∈ outbox lookups_down (TypingSignal "s1" c1 true) both_online ∧
      target e = ToRoom (user_room u2)) ∧
  reachable ann_twice ∧
  sockets ann_twice !! "s1" = Some u1 ∧
  sockets ann_twice !! "s3" = Some u1 ∧
  received "s3" (outbox healthy (TypingSignal "s1" c1 true) ann_twice)
    = [typing u1 c1 true].
Proof.
  split; [apply both_online_reachable|].
  split; [vm_compute; reflexivity|].
  split; [vm_compute; reflexivity|].
  split; [vm_compute; reflexivity|].
  split; [vm_compute; reflexivity|].
  assert (Hlog :
    outbox lookups_down (TypingSignal "s1" c1 true) both_online
    = [ mkEmission (ToRoomExcept (chat_room c1) "s1")
          (typing u1 c1 true) {[ "s2" ]} ])
    by (vm_compute; reflexivity).
  split; [exact Hlog|]. split.
  { rewrite Hlog. intros (e & He & Ht).
    apply list_elem_of_singleton in He as ->. discriminate Ht. }
  split; [apply ann_twice_reachable|].
  repeat split; vm_compute; reflexivity.
Qed.

Lemma ann_typing_never_comes_back :
  received "s1" (outbox healthy (TypingSignal "s1" c1 true) both_online) = [].
Proof.
  assert (Hs : sockets both_online !! "s1" = Some u1)
    by (vm_compute; reflexivity).
  destruct (typing_is_relayed_past_the_sender
              healthy "s1" u1 c1 true both_online
              both_online_reachable Hs) as (_ & _ & _ & Hself & _).
  exact Hself.
Defined.

(** * Worked examples for the further properties *)

Lemma hi_is_stored_when_the_save_fails :
  outbox save_down (SendMessage "s1" c1 "hi") both_online = [send_failure "s1"].
Proof.
  assert (Hs : sockets both_online !! "s1" = Some u1)
    by (vm_compute; reflexivity).
  assert (Hu : castObjectId u1 = Some (oid u1)) by (vm_compute; reflexivity).
  assert (Hc : castObjectId c1 = Some (oid c1)) by (vm_compute; reflexivity).
  assert (Hfind :
    find (λ c, bool_decide (chat_id c = oid c1 ∧ oid u1 ∈ participants c))
         (chats both_online) = Some chat1) by (vm_compute; reflexivity).
  destruct (failed_send_tells_only_the_sender
              save_down "s1" u1 c1 "hi" both_online chat1 (oid u1) (oid c1)
              Hs Hu Hc eq_refl Hfind eq_refl) as (Hlog & _).
  exact Hlog.
Defined.

Lemma bogus_token_leaves_no_trace :
  outbox healthy (Connect "s9" (Some "bogus")) both_online = [].
Proof.
  assert (Hnew : sockets both_online !! "s9" = None) by (vm_compute; reflexivity).
  assert (Hrej : completion (auth_middleware healthy (Some "bogus") both_online)
                 = Normal (Rejected "Unauthorized")) by (vm_compute; reflexivity).
  destruct (rejected_handshake_leaves_no_trace
              healthy "s9" (Some "bogus") "Unauthorized" both_online Hnew Hrej)
    as (Hlog & _).
  exact Hlog.
Defined.


Lemma offline_notice_goes_to_a_connected_socket :
  is_Some (sockets (step healthy (Disconnect "s1") both_online) !! "s2").
Proof.
  assert (Hlog : outbox healthy (Disconnect "s1") both_online
                 = [mkEmission (BroadcastExcept "s1") (user_offline u1) {[ "s2" ]}])
    by (vm_compute; reflexivity).
  apply (events_reach_connected_sockets_only healthy (Disconnect "s1") both_online
           (mkEmission (BroadcastExcept "s1") (user_offline u1) {[ "s2" ]}) "s2"
           both_online_reachable).
  - rewrite Hlog. left.
  - simpl. apply elem_of_singleton. reflexivity.
Defined.

Lemma bob_is_sent_a_duplicate_free_list :
  NoDup [u1].
Proof.
  assert (Hlog : outbox healthy (Connect "s2" (Some "tokB")) ann_online
                 = [mkEmission (ToSocket "s2") (online_users [u1]) {[ "s2" ]};
                    mkEmission (BroadcastExcept "s2") (user_online u2) {[ "s1" ]}])
    by (vm_compute; reflexivity).
  destruct (online_users_lists_each_identity_once
              healthy "s2" (Some "tokB") ann_online
              (mkEmission (ToSocket "s2") (online_users [u1]) {[ "s2" ]}) [u1]
              ann_online_reachable) as (_ & Hnd).
  - rewrite Hlog. left.
  - reflexivity.
  - exact Hnd.
Defined.

Lemma ann_is_listed_and_connected :
  ∃ s, JSMap.get u1 (onlineUsers ann_online) = Some s
       ∧ sockets ann_online !! s = Some u1.
Proof.
  apply (listed_identity_has_a_live_socket ann_online u1 ann_online_reachable).
  refine (bool_decide_unpack _ _). vm_compute. exact I.
Defined.

Lemma bob_is_in_his_personal_channel :
  "s2" ∈ room_members both_online (user_room u2).
Proof.
  apply (personal_channel_is_the_users_sockets both_online u2 "s2"
           both_online_reachable).
  vm_compute. reflexivity.
Defined.

(** Ann sends "hi" with the chat's id spelled in upper case: the message
    carries the chat's stored _id; the chat channel addressed is the one
    keyed by her spelling. *)
Lemma hi_comes_from_ann :
  let m := populate_sender (users both_online)
             (created_message healthy (oid u1) (oid c1) "hi") in
  let e := mkEmission (ToRoom (chat_room C1)) (new_message m)
             (room_members both_online (chat_room C1)) in
  e ∈ outbox healthy (SendMessage "s1" C1 "hi") both_online ∧
  ∃ c, c ∈ chats both_online ∧ castObjectId C1 = Some (chat_id c) ∧
       pm_chat m = chat_id c ∧ toString (pm_chat m) = c1.
Proof.
  intros m e.
  assert (Hs : sockets both_online !! "s1" = Some u1)
    by (vm_compute; reflexivity).
  assert (Hu : castObjectId u1 = Some (oid u1)) by (vm_compute; reflexivity).
  assert (Hc : castObjectId C1 = Some (oid c1)) by (vm_compute; reflexivity).
  assert (He : e ∈ outbox healthy (SendMessage "s1" C1 "hi") both_online).
  { rewrite (successful_send_log healthy "s1" u1 C1 "hi" both_online chat1
               (oid u1) (oid c1) Hs Hu Hc chat1_found_for_ann). left. }
  split; [exact He|].
  destruct (new_message_comes_from_a_participant
              healthy (SendMessage "s1" C1 "hi") both_online e m He eq_refl)
    as (sid & chatId & txt & u & c & uid & Hi & _ & _ & Hin & Hid & _ & _ & _ & Hchat & _).
  injection Hi as <- <- <-.
  exists c. split; [exact Hin|]. split; [exact Hid|]. split; [exact Hchat|].
  vm_compute. reflexivity.
Defined.

Lemma users_untouched_by_hi :
  users (run [(healthy, SendMessage "s1" c1 "hi")] both_online)
    = users both_online.
Proof.
  destruct (collections_over_a_run [(healthy, SendMessage "s1" c1 "hi")]
              both_online chat_ids_distinct) as (Husers & _).
  exact Husers.
Defined.

Lemma bob_sees_ann_typing_twice :
  received "s2" (outbox healthy (TypingSignal "s1" c1 true) both_online)
    = [typing u1 c1 true; typing u1 c1 true].
Proof.
  assert (Hs : sockets both_online !! "s1" = Some u1)
    by (vm_compute; reflexivity).
  assert (Hoid : castObjectId c1 = Some (oid c1)) by (vm_compute; reflexivity).
  assert (Hc : find (λ c, bool_decide (chat_id c = oid c1)) (chats both_online)
               = Some chat1) by (vm_compute; reflexivity).
  assert (Ho : find (λ p, bool_decide (toString p ≠ u1)) (participants chat1)
               = Some (oid u2))
    by (vm_compute; reflexivity).
  assert (Hne : "s2" ≠ "s1") by discriminate.
  rewrite (typing_reaches_the_first_other_participant
             healthy "s1" u1 c1 true both_online chat1 (oid c1) (oid u2) "s2"
             both_online_reachable Hs eq_refl Hoid Hc Ho Hne).
  vm_compute. reflexivity.
Defined.

Lemma first_handshake_keeps_presence_in_step :
  presence_matches_connections (step healthy (Connect "s1" (Some "tokA")) db0).
Proof.
  apply (presence_kept_when_identity_has_one_socket
           healthy (Connect "s1" (Some "tokA")) db0).
  - intros u. split.
    + intros [s Hs]. discriminate Hs.
    + intros [sid Hsid]. discriminate Hsid.
  - intros sid u Hi. discriminate Hi.
Defined.


Lemma hi_carries_anns_details :
  ∃ usr, usr ∈ users both_online ∧ user_id usr = oid u1.
Proof.
  assert (Hs : sockets both_online !! "s1" = Some u1)
    by (vm_compute; reflexivity).
  assert (Hu : castObjectId u1 = Some (oid u1)) by (vm_compute; reflexivity).
  assert (Hc : castObjectId c1 = Some (oid c1)) by (vm_compute; reflexivity).
  pose (m := populate_sender (users both_online)
               (created_message healthy (oid u1) (oid c1) "hi")).
  pose (e := mkEmission (ToRoom (chat_room c1)) (new_message m)
               (room_members both_online (chat_room c1))).
  destruct (new_message_carries_its_senders_details
              healthy (SendMessage "s1" c1 "hi") both_online e m
              both_online_reachable) as (usr & Hin & Hid & _).
  - rewrite (successful_send_log healthy "s1" u1 c1 "hi" both_online chat1
               (oid u1) (oid c1) Hs Hu Hc chat1_found_for_ann). left.
  - reflexivity.
  - by exists usr.
Defined.

Lemma ann_is_shown_bob_and_cyd :
  ∃ found, getUsers http_healthy u1 db_with_cyd
             = mkRun (Normal [Json 200 found]) db_with_cyd [] ∧
           (length found ≤ 50)%nat.
Proof.
  destruct (getUsers_lists_the_other_users http_healthy u1 db_with_cyd eq_refl)
    as (found & Hrun & Hlen & _).
  by exists found.
Defined.

Lemma ann_is_ann_on_both_sides :
  completion (protectedRoute http_healthy "clerk_a" db0) = Normal (Proceed u1).
Proof.
  assert (Htok : "tokA" ≠ "") by discriminate.
  apply (http_and_socket_identities_agree http_healthy "tokA" "clerk_a" u1 db0
           Htok eq_refl).
  vm_compute. reflexivity.
Defined.

Lemma ann_cannot_chat_with_herself :
  ∃ message, getOrCreateChat http_healthy u1 u1 db0
               = mkRun (Normal [JsonMessage 400 message]) db0 [] ∧
             message = "You cannot chat with yourself".
Proof.
  apply (chat_request_is_checked_before_the_database http_healthy u1 u1 db0).
  right. right. reflexivity.
Defined.

Lemma ann_opens_a_chat_with_bob :
  completion (getOrCreateChat http_healthy u1 u2 db_with_cyd)
  = Normal [Json 200 (mkChatSummary (oid m1) (Some (profile bob)) None None 1000)].
Proof. vm_compute. reflexivity. Defined.

(** Ann asks for a chat with her own id spelled in upper case, having no
    chat yet: the request passes the three checks and a chat listing her
    twice is created. *)
Lemma ann_opens_a_chat_with_herself :
  ∃ c uid pid,
    chats (final (getOrCreateChat http_healthy u1 U1 db_with_cyd)) = [c] ∧
    castObjectId u1 = Some uid ∧ castObjectId U1 = Some pid ∧
    participants c = [uid; pid] ∧ uid = pid.
Proof.
  destruct (chat_is_created_only_when_missing http_healthy u1 U1 db_with_cyd)
    as (_ & _ & _ & _ & _ & [Hsame|(c & uid & pid & Hchats & Hu & Hp & Hps & _)]).
  - vm_compute in Hsame. discriminate Hsame.
  - exists c, uid, pid. repeat split; try done.
    vm_compute in Hu, Hp. congruence.
Defined.

Lemma bob_finds_the_chat_ann_opened :
  ∃ s3, getOrCreateChat http_healthy u2 u1
          (final (getOrCreateChat http_healthy u1 u2 db_with_cyd))
        = mkRun (Normal [Json 200 s3])
            (final (getOrCreateChat http_healthy u1 u2 db_with_cyd)) [] ∧
        summary_id s3 = oid m1.
Proof.
  assert (Hu : u1 ≠ "") by discriminate.
  destruct (opening_a_chat_again_gives_the_same_chat
              http_healthy http_healthy u1 u2 db_with_cyd
              (mkChatSummary (oid m1) (Some (profile bob)) None None 1000)
              ann_opens_a_chat_with_bob eq_refl eq_refl eq_refl Hu) as (_ & Hagain).
  exact Hagain.
Defined.

Lemma ann_and_bob_can_write_to_the_opened_chat :
  ∃ pid c, castObjectId u2 = Some pid ∧
           send_succeeds healthy pid (oid m1)
             (final (getOrCreateChat http_healthy u1 u2 db_with_cyd)) c.
Proof.
  destruct (an_opened_chat_accepts_both_users
              http_healthy healthy u1 u2 db_with_cyd
              (mkChatSummary (oid m1) (Some (profile bob)) None None 1000)
              ann_opens_a_chat_with_bob) as (_ & _ & Hbob).
  - intros op. reflexivity.
  - exact Hbob.
Defined.

Lemma ann_gets_her_own_document :
  ∃ usr, getMe http_healthy u1 (final (protectedRoute http_healthy "clerk_a" db0))
           = mkRun (Normal [Json 200 usr]) db0 [] ∧
         usr ∈ users db0 ∧ toString (user_id usr) = u1.
Proof.
  assert (Hp : completion (protectedRoute http_healthy "clerk_a" db0)
               = Normal (Proceed u1)) by (vm_compute; reflexivity).
  exact (getMe_behind_protectedRoute_finds_the_user
           http_healthy "clerk_a" db0 u1 Hp eq_refl).
Defined.

Lemma the_chat_is_there_after_the_failed_populate :
  getOrCreateChat http_populate_down u1 u2 db_with_cyd
  = mkRun (Normal [NextError "database error"])
      (with_chats
         (λ cs, (cs ++ [mkChat (oid m1) [oid u1; oid u2] None None 1000])%list)
         db_with_cyd) [].
Proof.
  assert (H1 : u2 ≠ "") by discriminate.
  assert (H3 : u1 ≠ u2) by discriminate.
  assert (Hu : castObjectId u1 = Some (oid u1)) by (vm_compute; reflexivity).
  assert (Hp : castObjectId u2 = Some (oid u2)) by (vm_compute; reflexivity).
  assert (Hnone : ∀ c, c ∈ chats db_with_cyd →
                       ¬ (oid u1 ∈ participants c ∧ oid u2 ∈ participants c)).
  { intros c Hc. by apply elem_of_nil in Hc. }
  destruct (chat_survives_a_failed_populate
              http_populate_down http_healthy u1 u2 db_with_cyd (oid u1) (oid u2)
              H1 H3 eq_refl eq_refl Hu Hp Hnone eq_refl eq_refl eq_refl eq_refl)
    as (Hrun & _).
  exact Hrun.
Defined.

Lemma ann_is_shown_her_chat_with_bob :
  ∃ listed, getChats http_healthy u1 both_online
              = mkRun (Normal [Json 200 listed]) both_online [] ∧
            summary_id <$> listed
              ≡ₚ chat_id <$> filter (λ c, u1 ∈ toString <$> participants c)
                                    (chats both_online).
Proof.
  destruct (getChats_lists_the_requesters_chats http_healthy u1 both_online eq_refl)
    as (listed & Hrun & Hperm & _).
  by exists listed.
Defined.
